(** * RAG_DocsAssistant: the chunker and the cross-encoder re-ranker

    A shallow embedding of [utils/document_processor.py] and
    [rag/retrieval.py], and the properties of the retrieval pipeline that
    are decided by that code.

    Conventions.  A Python [str] is a [list ascii]; a character is read as
    the code point of the same number (0..255).  A Python [int] that may be
    negative is a [Z]; counters that only count up from 0 are [nat].
    [print] appends a line to a log; an exception is a value of [exn]
    returned on the left of a sum. *)

From Stdlib Require Import Ascii String ZArith Lia Bool Arith.
From Stdlib Require Import DecimalString DecimalNat.
From Stdlib Require QArith_base.
From Stdlib Require Import Sorting.Sorted Sorting.Permutation List.
Import ListNotations.

Set Implicit Arguments.
Local Open Scope list_scope.
Local Open Scope nat_scope.

(** ** Python strings *)

Module PyStr.

Definition str := list ascii.

(** A literal of the source, written as a Rocq string. *)
Definition lit (s : string) : str := list_ascii_of_string s.

(** The newline character. *)
Definition nl : ascii := "010"%char.

Definition code (c : ascii) : nat := nat_of_ascii c.

Definition between (lo hi : nat) (c : ascii) : bool :=
  (lo <=? code c) && (code c <=? hi).

(** [str.isspace] on one character, which is also the class [\s] of [re]
    for a [str] pattern: TAB..CR, FS..US, SPACE, NEL and NBSP below 256. *)
Definition is_space (c : ascii) : bool :=
  between 9 13 c || between 28 32 c || (code c =? 133) || (code c =? 160).

(** [s[:n]] for a Python int [n]: a negative bound counts from the end, and
    a bound outside the sequence is clipped. *)
Definition slice_to {A : Type} (n : Z) (l : list A) : list A :=
  if (n <? 0)%Z
  then firstn (Z.to_nat (Z.of_nat (length l) + n)) l
  else firstn (Z.to_nat n) l.

(** [len(s)] as a Python int. *)
Definition len {A : Type} (l : list A) : Z := Z.of_nat (length l).

Fixpoint lstrip (s : str) : str :=
  match s with
  | c :: s' => if is_space c then lstrip s' else s
  | [] => []
  end.

Definition rstrip (s : str) : str := rev (lstrip (rev s)).

(** [s.strip()] *)
Definition strip (s : str) : str := rstrip (lstrip s).

Fixpoint startswith (p s : str) : bool :=
  match p, s with
  | [], _ => true
  | a :: p', b :: s' => Ascii.eqb a b && startswith p' s'
  | _ :: _, [] => false
  end.

(** [needle in hay] on strings: [needle] occurs at some offset of [hay]. *)
Fixpoint contains (needle hay : str) : bool :=
  startswith needle hay ||
  match hay with
  | [] => false
  | _ :: hay' => contains needle hay'
  end.

(** What [in] decides: the needle occurs somewhere in the haystack. *)
Definition occurs_in (needle hay : str) : Prop :=
  exists pre post, hay = pre ++ needle ++ post.

(** [str(n)] for a non-negative int: its decimal digits. *)
Definition str_of_nat (n : nat) : str :=
  list_ascii_of_string (NilEmpty.string_of_uint (Nat.to_uint n)).

(** [l[::2]] *)
Fixpoint stride2 {A : Type} (l : list A) : list A :=
  match l with
  | x :: _ :: l' => x :: stride2 l'
  | [x] => [x]
  | [] => []
  end.

(** [os.path.basename]: what follows the last slash. *)
Fixpoint basename_from (acc s : str) : str :=
  match s with
  | [] => acc
  | c :: s' => if Ascii.eqb c "/"%char then basename_from s' s' else basename_from acc s'
  end.

Definition basename (p : str) : str := basename_from p p.

End PyStr.

(** ** The fragment of [re] that the section pattern uses *)

Module Re.
Import PyStr.

(** Pattern items, in the order in which the engine tries them. *)
Inductive node : Type :=
| Bol                                        (* ^ under (?m) *)
| Open                                       (* ( of group 1 *)
| Close                                      (* ) of group 1 *)
| Cls (cls : ascii -> bool)                  (* one character of a class *)
| Repeat (lo : nat) (cls : ascii -> bool).   (* cls{lo,}, greedy *)

(** A match: where it ends and the span of group 1, all counted from the
    position at which the attempt started. *)
Definition span := (nat * nat)%type.
Definition mres := (nat * span)%type.

(** What remains to be matched, as a function of the character before the
    current position, the position, the rest of the subject and group 1. *)
Definition cont := option ascii -> nat -> str -> span -> option mres.

(** Greedy repetition with backtracking: take one more character of the class
    while there is one, and give a character back each time the rest of the
    pattern fails behind it. *)
Fixpoint greedy (cls : ascii -> bool) (k : cont) (lo : nat)
         (prev : option ascii) (pos : nat) (s : str) (g : span) : option mres :=
  match s with
  | c :: s' =>
      if cls c then
        match greedy cls k (pred lo) (Some c) (S pos) s' g with
        | Some r => Some r
        | None => if lo =? 0 then k prev pos s g else None
        end
      else if lo =? 0 then k prev pos s g else None
  | [] => if lo =? 0 then k prev pos s g else None
  end.

Definition at_line_start (prev : option ascii) : bool :=
  match prev with
  | None => true
  | Some c => Ascii.eqb c nl
  end.

Fixpoint run (p : list node) (k : cont) : cont :=
  match p with
  | [] => k
  | Bol :: p' => fun prev pos s g =>
      if at_line_start prev then run p' k prev pos s g else None
  | Open :: p' => fun prev pos s g => run p' k prev pos s (pos, snd g)
  | Close :: p' => fun prev pos s g => run p' k prev pos s (fst g, pos)
  | Cls cls :: p' => fun prev pos s g =>
      match s with
      | c :: s' => if cls c then run p' k (Some c) (S pos) s' g else None
      | [] => None
      end
  | Repeat lo cls :: p' => greedy cls (run p' k) lo
  end.

Definition accept : cont := fun _ pos _ g => Some (pos, g).

(** One attempt at the current position. *)
Definition match_at (p : list node) (prev : option ascii) (s : str) : option mres :=
  run p accept prev 0 s (0, 0).

(** [search]: the attempts are made at each position from left to right and
    the first that succeeds wins.  The result carries the offset of the
    match. *)
Fixpoint search (p : list node) (prev : option ascii) (s : str) : option (nat * mres) :=
  match match_at p prev s with
  | Some r => Some (0, r)
  | None =>
      match s with
      | [] => None
      | c :: s' =>
          match search p (Some c) s' with
          | Some (i, r) => Some (S i, r)
          | None => None
          end
      end
  end.

Definition last_before (prev : option ascii) (s : str) (n : nat) : option ascii :=
  match n with
  | 0 => prev
  | S m => nth_error s m
  end.

(** [re.split] for a pattern with one group whose matches are never empty:
    the text before each match, then the text of group 1, and at the end
    the text after the last match.  The search resumes where the match
    ended.  The fuel bounds the number of matches. *)
Fixpoint split_from (fuel : nat) (p : list node) (prev : option ascii) (s : str) : list str :=
  match fuel with
  | 0 => [s]
  | S fuel' =>
      match search p prev s with
      | None => [s]
      | Some (i, (e, (o, c))) =>
          firstn i s
          :: firstn (c - o) (skipn (i + o) s)
          :: split_from fuel' p (last_before prev s (i + e)) (skipn (i + e) s)
      end
  end.

Definition split (p : list node) (s : str) : list str :=
  split_from (S (length s)) p None s.

End Re.

(** ** utils/document_processor.py *)

Module DocumentProcessor.
Import PyStr.

(** utils/config.py *)
Definition CHUNK_SIZE : nat := 1000.
Definition CHUNK_OVERLAP : nat := 200.

(** The exceptions that the handlers of [process_pdf] tell apart, by class:
    [FileNotFoundError] is an exception of that class, [OtherException msg]
    one of any other class below [Exception], with [msg] what [str] gives for
    it.  A handler is chosen by the class of the exception, wherever in the
    [try] the exception was raised. *)
Inductive exn : Type :=
| FileNotFoundError
| OtherException (msg : str).

(** What the file system and PyPDF2 answer.  [open] raises
    [FileNotFoundError] for a missing file and may raise another exception;
    [PdfReader] may reject the file; [extract_text] returns the text of a
    page, empty when there is none, or raises.  What is raised is an
    exception of either class. *)
Inductive page_src : Type :=
| Extracted (text : str)
| ExtractRaises (e : exn).

Inductive reader_src : Type :=
| Reader (pages : list page_src)
| ReaderRaises (e : exn).

Inductive file_src : Type :=
| Missing
| OpenRaises (e : exn)
| Opened (r : reader_src).

Definition filesystem := str -> file_src.

(** The entries of [pages_content]. *)
Record page_info : Type := { text : str; page_no : nat }.

(** The [page] of a chunk: a page number or the string "N/A". *)
Inductive page_meta : Type :=
| PageNum (n : nat)
| PageNA.

Record Metadata : Type :=
  { source : str; page : page_meta; chunk_id : str; section : str }.

Record Document : Type :=
  { page_content : str; metadata : Metadata }.

(** The character classes of the section pattern. *)
Definition upper (c : ascii) : bool := between 65 90 c.
Definition digit (c : ascii) : bool := between 48 57 c.
Definition title_char (c : ascii) : bool :=
  upper c || digit c || is_space c || Ascii.eqb c "-"%char || Ascii.eqb c ":"%char.
Definition newline (c : ascii) : bool := Ascii.eqb c nl.

(** [(?m)^([A-Z][A-Z0-9\s\-:]{5,})\n] *)
Definition section_pattern : list Re.node :=
  [Re.Bol; Re.Open; Re.Cls upper; Re.Repeat 5 title_char; Re.Close; Re.Cls newline].

(** Step 1: the page mapping and the full text.  [page_num] is the index that
    [enumerate] gives to the first page of [pages]. *)
Fixpoint extract_pages (page_num : nat) (pages : list page_src)
         (pages_content : list page_info) (full_text : str)
  : exn + (list page_info * str) :=
  match pages with
  | [] => inr (pages_content, full_text)
  | Extracted [] :: rest =>
      extract_pages (S page_num) rest pages_content full_text
  | Extracted t :: rest =>
      extract_pages (S page_num) rest
        (pages_content ++ [{| text := t; page_no := page_num + 1 |}])
        (full_text ++ t ++ [nl])
  | ExtractRaises e :: _ => inl e
  end.

(** Step 2: the (title, content) pairs. *)
Definition content_list_of (full_text : str) : list (str * str) :=
  let sections := Re.split section_pattern full_text in
  if 1 <? length sections
  then (lit "Introduction", nth 0 sections [])
       :: combine (stride2 (skipn 1 sections)) (stride2 (skipn 2 sections))
  else [(lit "General", full_text)].

(** The inner loop over [pages_content], with its [break]. *)
Fixpoint find_page (pages_content : list page_info) (chunk_text : str) : page_meta :=
  match pages_content with
  | [] => PageNA
  | page_info :: rest =>
      if contains (slice_to (Z.max 50 (len chunk_text)) chunk_text) (text page_info)
      then PageNum (page_no page_info)
      else find_page rest chunk_text
  end.

Section Chunking.

(** langchain's splitter, by chunk size, chunk overlap and separators. *)
Variable RecursiveCharacterTextSplitter : nat -> nat -> list str -> str -> list str.

Definition split_text : str -> list str :=
  RecursiveCharacterTextSplitter CHUNK_SIZE CHUNK_OVERLAP
    [[nl; nl]; [nl]; lit ". "; lit " "; []].

(** The loop state: [chunk_id_counter] and [doc_chunks]. *)
Definition loop_state := (nat * list Document)%type.

(** The loop over the chunks of one section. *)
Fixpoint chunk_loop (file_name section_title : str) (pages_content : list page_info)
         (chunks : list str) (st : loop_state) : loop_state :=
  match chunks with
  | [] => st
  | chunk_text :: rest =>
      let '(chunk_id_counter, doc_chunks) := st in
      let page_num := find_page pages_content chunk_text in
      let md := {| source := file_name;
                   page := page_num;
                   chunk_id := lit "chunk_" ++ str_of_nat chunk_id_counter;
                   section := section_title |} in
      chunk_loop file_name section_title pages_content rest
        (S chunk_id_counter,
         doc_chunks ++ [{| page_content := chunk_text; metadata := md |}])
  end.

(** Step 3: the loop over the sections. *)
Fixpoint section_loop (file_name : str) (pages_content : list page_info)
         (content_list : list (str * str)) (st : loop_state) : loop_state :=
  match content_list with
  | [] => st
  | (section_title, section_text) :: rest =>
      let section_title := strip section_title in
      match strip section_text with
      | [] => section_loop file_name pages_content rest st
      | _ :: _ =>
          section_loop file_name pages_content rest
            (chunk_loop file_name section_title pages_content
               (split_text section_text) st)
      end
  end.

(** The body of the [try]: the chunks and what was printed, or the exception
    that left it. *)
Definition process_body (fs : filesystem) (file_path : str)
  : exn + (list Document * list str) :=
  let file_name := basename file_path in
  match fs file_path with
  | Missing => inl FileNotFoundError
  | OpenRaises e => inl e
  | Opened (ReaderRaises e) => inl e
  | Opened (Reader pages) =>
      match extract_pages 0 pages [] [] with
      | inl e => inl e
      | inr (pages_content, full_text) =>
          let content_list := content_list_of full_text in
          let '(_, doc_chunks) :=
            section_loop file_name pages_content content_list (0, []) in
          inr (doc_chunks,
               [lit "Document processed. Generated " ++ str_of_nat (length doc_chunks)
                ++ lit " chunks from " ++ str_of_nat (length content_list)
                ++ lit " sections."])
      end
  end.

Definition not_found_line (file_path : str) : str :=
  lit "Error: The file was not found at path " ++ file_path.

Definition unexpected_line (msg : str) : str :=
  lit "An unexpected error occurred while processing the PDF: " ++ msg.

(** [process_pdf]: what it prints and what it returns. *)
Definition process_pdf (fs : filesystem) (file_path : str) : list str * list Document :=
  let started := [lit "Processing file with structural chunking: " ++ file_path] in
  match process_body fs file_path with
  | inr (doc_chunks, printed) => (started ++ printed, doc_chunks)
  | inl FileNotFoundError => (started ++ [not_found_line file_path], [])
  | inl (OtherException msg) => (started ++ [unexpected_line msg], [])
  end.

End Chunking.

(** *** A splitter that raises

    [split_text] is a call into langchain inside the [try], as the calls into
    PyPDF2 are.  Here it returns its chunks or raises; of the calls of the
    loop it is the one that can raise after chunks were appended to
    [doc_chunks]. *)
Section Raising.

Variable split_text_raising : str -> exn + list str.

(** Step 3, left by the exception of a [split_text]. *)
Fixpoint section_loop_raising (file_name : str) (pages_content : list page_info)
         (content_list : list (str * str)) (st : loop_state) : exn + loop_state :=
  match content_list with
  | [] => inr st
  | (section_title, section_text) :: rest =>
      let section_title := strip section_title in
      match strip section_text with
      | [] => section_loop_raising file_name pages_content rest st
      | _ :: _ =>
          match split_text_raising section_text with
          | inl e => inl e
          | inr chunks =>
              section_loop_raising file_name pages_content rest
                (chunk_loop file_name section_title pages_content chunks st)
          end
      end
  end.

Definition process_body_raising (fs : filesystem) (file_path : str)
  : exn + (list Document * list str) :=
  let file_name := basename file_path in
  match fs file_path with
  | Missing => inl FileNotFoundError
  | OpenRaises e => inl e
  | Opened (ReaderRaises e) => inl e
  | Opened (Reader pages) =>
      match extract_pages 0 pages [] [] with
      | inl e => inl e
      | inr (pages_content, full_text) =>
          let content_list := content_list_of full_text in
          match section_loop_raising file_name pages_content content_list (0, []) with
          | inl e => inl e
          | inr (_, doc_chunks) =>
              inr (doc_chunks,
                   [lit "Document processed. Generated " ++ str_of_nat (length doc_chunks)
                    ++ lit " chunks from " ++ str_of_nat (length content_list)
                    ++ lit " sections."])
          end
      end
  end.

(** [process_pdf] with this splitter: the two handlers return a new empty
    list, not [doc_chunks]. *)
Definition process_pdf_raising (fs : filesystem) (file_path : str)
  : list str * list Document :=
  let started := [lit "Processing file with structural chunking: " ++ file_path] in
  match process_body_raising fs file_path with
  | inr (doc_chunks, printed) => (started ++ printed, doc_chunks)
  | inl FileNotFoundError => (started ++ [not_found_line file_path], [])
  | inl (OtherException msg) => (started ++ [unexpected_line msg], [])
  end.

End Raising.

End DocumentProcessor.

(** ** rag/retrieval.py, with what it calls in rag/vector_store.py and
    models/llm_manager.py *)

Module Retrieval.
Import PyStr.
Import DocumentProcessor.

(** utils/config.py *)
Definition EMBEDDING_MODEL : str :=
  lit "sentence-transformers/paraphrase-multilingual-MiniLM-L12-v2".
Definition CHROMA_COLLECTION_NAME : str := lit "zurich_policy_s655".
Definition OLLAMA_MODELS : list (str * str) :=
  [(lit "Mistral", lit "mistral:7b"); (lit "Llama2", lit "llama2:7b")].
Definition LLM_TEMPERATURE : QArith_base.Q := QArith_base.Qmake 1 10.
Definition LLM_TOP_P : QArith_base.Q := QArith_base.Qmake 9 10.

Inductive exn : Type :=
| RuntimeError (msg : str)
| ValueError (msg : str).

(** The error of a re-ranker whose model did not load. *)
Definition ModelUnavailable : exn :=
  RuntimeError (lit "CrossEncoder model is not initialized. Cannot perform re-ranking.").

(** [sorted(l, key=key, reverse=True)]: descending by [<] on the keys, and
    stable, elements with equal keys keeping their order. *)
Section Sorted.

Variables (A K : Type) (key : A -> K) (lt : K -> K -> bool).

Fixpoint insert_desc (x : A) (l : list A) : list A :=
  match l with
  | [] => [x]
  | y :: l' => if lt (key x) (key y) then y :: insert_desc x l' else x :: l
  end.

Definition sorted_desc (l : list A) : list A := fold_right insert_desc [] l.

End Sorted.

Section Pipeline.

(** The scores of the cross-encoder and Python's [<] on them. *)
Variable score : Type.
Variable lt : score -> score -> bool.

(** A loaded model: its [predict], from (query, passage) pairs to scores. *)
Definition CrossEncoder := list (str * str) -> list score.

(** What is observable apart from the result: the lines printed and the
    calls of the model.  In a printed line a character above 255 stands as
    its UTF-8 bytes. *)
Inductive event : Type :=
| Printed (line : str)
| Predicted (pairs : list (str * str)).

Record LocalCrossEncoderReranker : Type :=
  { model_name : str; top_n : Z; cross_encoder : option CrossEncoder }.

Definition default_model_name : str := lit "cross-encoder/ms-marco-MiniLM-L-6-v2".

(** Loading a model by name: the model, or the message of the exception. *)
Variable load : str -> str + CrossEncoder.

(** [LocalCrossEncoderReranker(top_n=...)]: a failed load is printed and
    leaves [cross_encoder] at None. *)
Definition init (top_n : Z) : list event * LocalCrossEncoderReranker :=
  let name := default_model_name in
  let started := Printed (lit "Initializing CrossEncoder: " ++ name ++ lit "...") in
  match load name with
  | inr m =>
      ([started], {| model_name := name; top_n := top_n; cross_encoder := Some m |})
  | inl e =>
      ([started; Printed (lit "Error initializing CrossEncoder: " ++ e)],
       {| model_name := name; top_n := top_n; cross_encoder := None |})
  end.

Definition compress_documents (self : LocalCrossEncoderReranker)
           (documents : list Document) (query : str)
  : list event * (exn + list Document) :=
  match documents with
  | [] => ([], inr [])
  | _ :: _ =>
      match cross_encoder self with
      | None => ([], inl ModelUnavailable)
      | Some model =>
          let doc_list := documents in
          let passages := map page_content doc_list in
          let pairs := map (fun passage => (query, passage)) passages in
          let scores := model pairs in
          let docs_with_scores := sorted_desc snd lt (combine doc_list scores) in
          ([Printed (lit "Re-ranking " ++ str_of_nat (length passages)
                     ++ lit " documents with CrossEncoder...");
            Predicted pairs],
           inr (map fst (slice_to (top_n self) docs_with_scores)))
      end
  end.

(** rag/vector_store.py: the manager, by the chunks its collection holds. *)
Record VectorStoreManager : Type := { collection : list Document }.

Definition get_all_documents (m : VectorStoreManager) : list event * list Document :=
  let docs := collection m in
  ([Printed (lit "Retrieving all documents from the vector database...");
    Printed (str_of_nat (length docs) ++ lit " documents retrieved.")],
   docs).

(** models/llm_manager.py *)
Record ModelConfig : Type :=
  { model : str; temperature : QArith_base.Q; top_p : QArith_base.Q }.

Fixpoint dict_get (k : str) (d : list (str * str)) : option str :=
  match d with
  | [] => None
  | (k', v) :: d' => if list_eq_dec ascii_dec k k' then Some v else dict_get k d'
  end.

Definition _get_common_config (model_key : str) : exn + ModelConfig :=
  match dict_get model_key OLLAMA_MODELS with
  | Some (c :: n) =>
      inr {| model := c :: n; temperature := LLM_TEMPERATURE; top_p := LLM_TOP_P |}
  | _ => inl (ValueError (lit "Model '" ++ model_key ++ lit "' not found in configuration."))
  end.

Definition get_chat_model (model_key : str) : list event * (exn + ModelConfig) :=
  ([Printed (lit "Loading Chat Model: " ++ model_key)], _get_common_config model_key).

Definition get_llm (model_key : str) : list event * (exn + ModelConfig) :=
  ([Printed (lit "Loading base LLM model: " ++ model_key)], _get_common_config model_key).

(** The retrievers of langchain, as [get_advanced_retriever] assembles
    them. *)
#[warnings="-register-all"]
Inductive Retriever : Type :=
| BM25Retriever (docs : list Document) (k : nat)
| ChromaRetriever (collection_name embedding : str) (k : nat)
| EnsembleRetriever (retrievers : list Retriever) (weights : list QArith_base.Q)
| MultiQueryRetriever (retriever : Retriever) (llm : ModelConfig)
| ContextualCompressionRetriever (base_compressor : LocalCrossEncoderReranker)
                                 (base_retriever : Retriever).

(** The result is the retriever, or None. *)
Definition get_advanced_retriever (vector_store_manager : VectorStoreManager)
           (model_key : str) : list event * (exn + option Retriever) :=
  let p0 := [Printed (lit "Initializing advanced retriever with model "
                      ++ model_key ++ lit "...")] in
  let '(p1, all_docs) := get_all_documents vector_store_manager in
  match all_docs with
  | [] =>
      (p0 ++ p1 ++
       [Printed (lit "WARNING: No documents found in the database. The retriever will not work.")],
       inr None)
  | _ :: _ =>
      let bm25_retriever := BM25Retriever all_docs 10 in
      let chroma_retriever := ChromaRetriever CHROMA_COLLECTION_NAME EMBEDDING_MODEL 10 in
      let ensemble_retriever :=
        EnsembleRetriever [bm25_retriever; chroma_retriever]
          [QArith_base.Qmake 1 2; QArith_base.Qmake 1 2] in
      let p2 := [Printed (lit "Initializing Multi-Query-Retriever to expand the user's question...")] in
      let '(p3, llm) := get_chat_model model_key in
      match llm with
      | inl e => (p0 ++ p1 ++ p2 ++ p3, inl e)
      | inr llm_for_query_expansion =>
          let multi_query_retriever :=
            MultiQueryRetriever ensemble_retriever llm_for_query_expansion in
          let '(p4, reranker) := init 4 in
          let compression_retriever :=
            ContextualCompressionRetriever reranker multi_query_retriever in
          (p0 ++ p1 ++ p2 ++ p3 ++ p4 ++
           [Printed (lit "✅ Advanced retriever initialized successfully.")],
           inr (Some compression_retriever))
      end
  end.

(** The chain of [get_rag_chain]: [RetrievalQA] of type "stuff" over the
    retriever, returning its source documents. *)
Record RetrievalQA : Type :=
  { qa_llm : ModelConfig; qa_retriever : Retriever }.

Definition get_rag_chain (model_key : str) (vector_store_manager : VectorStoreManager)
  : list event * (exn + option RetrievalQA) :=
  let p0 := [Printed (lit "Configuring RAG (QA) chain with model: " ++ model_key)] in
  let '(p1, r) := get_advanced_retriever vector_store_manager model_key in
  match r with
  | inl e => (p0 ++ p1, inl e)
  | inr None => (p0 ++ p1, inr None)
  | inr (Some advanced_retriever) =>
      let '(p2, llm) := get_llm model_key in
      match llm with
      | inl e => (p0 ++ p1 ++ p2, inl e)
      | inr llm =>
          (p0 ++ p1 ++ p2 ++
           [Printed (lit "✅ Advanced RAG (QA) chain configured successfully.")],
           inr (Some {| qa_llm := llm; qa_retriever := advanced_retriever |}))
      end
  end.

(** The orchestrator in the words of the specification, [retrieve(query)]: a
    query is run through the retriever that [get_advanced_retriever]
    returns, [invoke] standing for langchain's evaluation of a retriever;
    there is no answer when no retriever was built. *)
Definition spec_retrieve (invoke : Retriever -> str -> exn + list Document)
           (vector_store_manager : VectorStoreManager) (model_key query : str)
  : option (exn + list Document) :=
  match snd (get_advanced_retriever vector_store_manager model_key) with
  | inr (Some retriever) => Some (invoke retriever query)
  | inr None => None
  | inl e => Some (inl e)
  end.

End Pipeline.

End Retrieval.

(** * Properties *)

(** ** Slices and substrings *)

Module PyStrFacts.
Import PyStr.

Lemma slice_to_nonneg (A : Type) (n : Z) (l : list A) :
  (0 <= n)%Z -> slice_to n l = firstn (Z.to_nat n) l.
Proof.
  intros Hn. unfold slice_to.
  destruct (n <? 0)%Z eqn:E; [apply Z.ltb_lt in E; lia | reflexivity].
Qed.

Lemma slice_to_length (A : Type) (n : Z) (l : list A) :
  (0 <= n)%Z -> (len (slice_to n l) <= n)%Z.
Proof.
  intros Hn. rewrite slice_to_nonneg by assumption.
  unfold len. rewrite length_firstn. lia.
Qed.

(** A bound that is at least the length keeps the whole sequence. *)
Lemma slice_to_all (A : Type) (n : Z) (l : list A) :
  (len l <= n)%Z -> slice_to n l = l.
Proof.
  intros Hn. unfold len in Hn. rewrite slice_to_nonneg by lia.
  apply firstn_all2. lia.
Qed.

Lemma startswith_spec (p s : str) :
  startswith p s = true <-> exists post, s = p ++ post.
Proof.
  revert s. induction p as [|a p IH]; intros s; simpl.
  - split; [intros _; exists s; reflexivity | reflexivity].
  - destruct s as [|b s].
    + split; [discriminate | intros [post H]; discriminate].
    + rewrite andb_true_iff, Ascii.eqb_eq, IH. split.
      * intros [-> [post ->]]. exists post. reflexivity.
      * intros [post H]. injection H as -> ->. split; [reflexivity | now exists post].
Qed.

Lemma contains_spec (needle hay : str) :
  contains needle hay = true <-> occurs_in needle hay.
Proof.
  unfold occurs_in. induction hay as [|c hay IH]; simpl.
  - rewrite orb_false_r, startswith_spec. split.
    + intros [post H]. exists [], post. exact H.
    + intros [pre [post H]]. destruct pre; [now exists post | discriminate].
  - rewrite orb_true_iff, startswith_spec, IH. split.
    + intros [[post H] | [pre [post H]]].
      * exists [], post. exact H.
      * exists (c :: pre), post. simpl. now rewrite H.
    + intros [pre [post H]]. destruct pre as [|c' pre].
      * left. now exists post.
      * right. injection H as _ H. now exists pre, post.
Qed.

Lemma contains_false (needle hay : str) :
  contains needle hay = false <-> ~ occurs_in needle hay.
Proof.
  rewrite <- contains_spec. destruct (contains needle hay); split; congruence.
Qed.

(** Decimal numerals determine the number. *)
Lemma str_of_nat_inj (m n : nat) : str_of_nat m = str_of_nat n -> m = n.
Proof.
  unfold str_of_nat. intros H.
  apply (f_equal string_of_list_ascii) in H.
  rewrite !string_of_list_ascii_of_string in H.
  apply (f_equal NilEmpty.uint_of_string) in H.
  rewrite !NilEmpty.usu in H. injection H as H.
  now apply DecimalNat.Unsigned.to_uint_inj.
Qed.

End PyStrFacts.

(** ** The re-ranker *)

Module RerankerProps.
Import PyStr PyStrFacts DocumentProcessor Retrieval.

Section Sorting.

Variables (A K : Type) (key : A -> K) (lt : K -> K -> bool).

(** [x] may stand before [y] in a descending order. *)
Definition desc (x y : A) : Prop := lt (key x) (key y) = false.

Lemma insert_desc_perm (x : A) (l : list A) :
  Permutation (x :: l) (insert_desc key lt x l).
Proof.
  induction l as [|y l IH]; simpl; [apply Permutation_refl|].
  destruct (lt (key x) (key y)); [|apply Permutation_refl].
  eapply perm_trans; [apply perm_swap|]. now apply perm_skip.
Qed.

Lemma sorted_desc_perm (l : list A) : Permutation l (sorted_desc key lt l).
Proof.
  induction l as [|x l IH]; simpl; [apply perm_nil|].
  eapply perm_trans; [apply perm_skip, IH | apply insert_desc_perm].
Qed.

(** [<] on the scores is a strict weak order (no score is a NaN). *)
Hypothesis lt_asym : forall a b, lt a b = true -> lt b a = false.
Hypothesis ge_trans : forall a b c, lt a b = false -> lt b c = false -> lt a c = false.

Lemma insert_desc_sorted (x : A) (l : list A) :
  StronglySorted desc l -> StronglySorted desc (insert_desc key lt x l).
Proof.
  induction 1 as [|y l Hl IH Hy]; simpl.
  - constructor; constructor.
  - destruct (lt (key x) (key y)) eqn:E.
    + constructor; [exact IH|].
      eapply Permutation_Forall; [apply insert_desc_perm|].
      constructor; [apply lt_asym, E | exact Hy].
    + constructor; [now constructor|].
      constructor; [exact E|].
      eapply Forall_impl; [|exact Hy].
      intros z Hz. unfold desc in *. eapply ge_trans; eassumption.
Qed.

Lemma sorted_desc_sorted (l : list A) : StronglySorted desc (sorted_desc key lt l).
Proof.
  induction l as [|x l IH]; simpl; [constructor | now apply insert_desc_sorted].
Qed.

End Sorting.

Section Rerank.

Variable score : Type.
Variable lt : score -> score -> bool.
Hypothesis lt_asym : forall a b, lt a b = true -> lt b a = false.
Hypothesis ge_trans : forall a b c, lt a b = false -> lt b c = false -> lt a c = false.

(** The pairs that [compress_documents] hands to the model. *)
Definition pairs_for (query : str) (documents : list Document) : list (str * str) :=
  map (fun d => (query, page_content d)) documents.

(** C2.  With a loaded model and a count [top_n] that is not negative, the
    result for a non-empty candidate list is the first [top_n] documents of
    the candidates paired with their scores and arranged in descending
    order of score, so it has at most [top_n] documents; for the empty list
    the result is empty and the model is not called (nothing is printed
    either). *)
Theorem compress_documents_top_n_sorted
        (self : LocalCrossEncoderReranker score) (model : CrossEncoder score)
        (documents : list Document) (query : str) :
  cross_encoder self = Some model ->
  (0 <= top_n self)%Z ->
  documents <> [] ->
  (exists all ranked : list (Document * score),
     Permutation all (combine documents (model (pairs_for query documents))) /\
     StronglySorted (fun a b => lt (snd a) (snd b) = false) all /\
     ranked = firstn (Z.to_nat (top_n self)) all /\
     snd (compress_documents lt self documents query) = inr (map fst ranked) /\
     In (Predicted (pairs_for query documents))
        (fst (compress_documents lt self documents query)) /\
     (len (map fst ranked) <= top_n self)%Z)
  /\ compress_documents lt self [] query = ([], inr []).
Proof.
  intros Hm Hn Hne. split; [|reflexivity].
  set (scored := combine documents (model (pairs_for query documents))).
  exists (sorted_desc snd lt scored), (firstn (Z.to_nat (top_n self)) (sorted_desc snd lt scored)).
  assert (Hpairs : map (fun passage => (query, passage)) (map page_content documents)
                   = pairs_for query documents)
    by (unfold pairs_for; now rewrite map_map).
  repeat split.
  - apply Permutation_sym, sorted_desc_perm.
  - apply (sorted_desc_sorted snd lt lt_asym ge_trans).
  - unfold compress_documents. destruct documents as [|d ds]; [congruence|].
    rewrite Hm. cbn [snd]. rewrite Hpairs, slice_to_nonneg by assumption. reflexivity.
  - unfold compress_documents. destruct documents as [|d ds]; [congruence|].
    rewrite Hm. cbn [fst]. rewrite Hpairs. right. left. reflexivity.
  - unfold len. rewrite length_map, length_firstn. lia.
Qed.

(** C3.  A re-ranker whose model handle is None raises [ModelUnavailable]
    for every query and every non-empty candidate list, and the model is not
    called. *)
Theorem compress_documents_model_unavailable
        (self : LocalCrossEncoderReranker score)
        (documents : list Document) (query : str) :
  cross_encoder self = None ->
  documents <> [] ->
  compress_documents lt self documents query = ([], inl ModelUnavailable).
Proof.
  intros Hm Hne. unfold compress_documents.
  destruct documents as [|d ds]; [congruence|]. now rewrite Hm.
Qed.

(** The handle is None exactly after a failed load. *)
Lemma init_handle (load : str -> str + CrossEncoder score) (n : Z) :
  cross_encoder (snd (init load n)) =
  match load (default_model_name) with inr m => Some m | inl _ => None end.
Proof.
  unfold init. now destruct (load default_model_name).
Qed.

(** C10.  The emptiness test comes first: a re-ranker whose model handle is
    None answers the empty candidate list with the empty list and raises
    nothing. *)
Theorem compress_documents_empty_before_model
        (self : LocalCrossEncoderReranker score) (query : str) :
  cross_encoder self = None ->
  compress_documents lt self [] query = ([], inr []).
Proof.
  intros _. reflexivity.
Qed.

End Rerank.

End RerankerProps.

(** ** The chunker *)

Module ChunkerProps.
Import PyStr PyStrFacts DocumentProcessor.

(** What the handler of an exception prints. *)
Definition handler_line (file_path : str) (e : exn) : str :=
  match e with
  | FileNotFoundError => not_found_line file_path
  | OtherException msg => unexpected_line msg
  end.

Definition started_line (file_path : str) : str :=
  lit "Processing file with structural chunking: " ++ file_path.

(** The two handlers print different lines, so the line tells the class. *)
Lemma handler_line_not_found (file_path : str) (e : exn) :
  handler_line file_path e = not_found_line file_path <-> e = FileNotFoundError.
Proof.
  destruct e as [|msg]; simpl.
  - split; reflexivity.
  - split; discriminate.
Qed.

Lemma extract_pages_fails (before after : list page_src) (e : exn) :
  Forall (fun p => exists t, p = Extracted t) before ->
  forall n pc ft,
    extract_pages n (before ++ ExtractRaises e :: after) pc ft = inl e.
Proof.
  induction 1 as [|p before [t ->] _ IH]; intros n pc ft; simpl.
  - reflexivity.
  - destruct t; apply IH.
Qed.

Lemma extract_pages_no_text (pages : list page_src) :
  Forall (fun p => p = Extracted []) pages ->
  forall n pc ft, extract_pages n pages pc ft = inr (pc, ft).
Proof.
  induction 1 as [|p pages -> _ IH]; intros n pc ft; simpl; [reflexivity | apply IH].
Qed.

(** A page that raises leaves the extraction with its exception, after the
    pages before it were extracted. *)
Lemma extract_pages_raises (pages : list page_src) :
  forall n pc ft e,
    extract_pages n pages pc ft = inl e ->
    exists before after,
      pages = before ++ ExtractRaises e :: after
      /\ Forall (fun p => exists t, p = Extracted t) before.
Proof.
  induction pages as [|p pages IH]; intros n pc ft e H; simpl in H; [discriminate|].
  destruct p as [[|c t]|e'].
  - destruct (IH _ _ _ _ H) as (before & after & -> & F).
    exists (Extracted [] :: before), after. split; [reflexivity|].
    constructor; [now eexists | exact F].
  - destruct (IH _ _ _ _ H) as (before & after & -> & F).
    exists (Extracted (c :: t) :: before), after. split; [reflexivity|].
    constructor; [now eexists | exact F].
  - injection H as ->. exists [], pages. split; [reflexivity | constructor].
Qed.

Section Raising.

(** Every property holds whatever the splitter returns or raises. *)
Variable text_splitter : str -> exn + list str.

(** Where the [try] is left by an exception, the exception, and what
    [doc_chunks] holds at that moment: the file is missing, [open] or
    [PdfReader] raises, a page raises after the pages before it were
    extracted, or the splitter raises on a section after the sections before
    it were chunked. *)
Inductive raises (file_name : str) : file_src -> exn -> list Document -> Prop :=
| raises_missing :
    raises file_name Missing FileNotFoundError []
| raises_open e :
    raises file_name (OpenRaises e) e []
| raises_reader e :
    raises file_name (Opened (ReaderRaises e)) e []
| raises_page before e after :
    Forall (fun p => exists t, p = Extracted t) before ->
    raises file_name (Opened (Reader (before ++ ExtractRaises e :: after))) e []
| raises_split pages pages_content full_text before title body after e c doc_chunks :
    extract_pages 0 pages [] [] = inr (pages_content, full_text) ->
    content_list_of full_text = before ++ (title, body) :: after ->
    section_loop_raising text_splitter file_name pages_content before (0, []) = inr (c, doc_chunks) ->
    strip body <> [] ->
    text_splitter body = inl e ->
    raises file_name (Opened (Reader pages)) e doc_chunks.

Lemma section_loop_raising_app file_name pc (l1 l2 : list (str * str)) :
  forall st,
    section_loop_raising text_splitter file_name pc (l1 ++ l2) st
    = match section_loop_raising text_splitter file_name pc l1 st with
      | inl e => inl e
      | inr st' => section_loop_raising text_splitter file_name pc l2 st'
      end.
Proof.
  induction l1 as [|[title body] l1 IH]; intros st; [reflexivity|].
  cbn [app section_loop_raising]. cbv zeta.
  destruct (strip body); [apply IH|].
  destruct (text_splitter body); [reflexivity | apply IH].
Qed.

(** The loop is left only by the exception of a splitter call, on a section
    that is not blank, with the sections before it chunked. *)
Lemma section_loop_raising_inl file_name pc (content_list : list (str * str)) :
  forall st e,
    section_loop_raising text_splitter file_name pc content_list st = inl e ->
    exists before title body after st',
      content_list = before ++ (title, body) :: after
      /\ section_loop_raising text_splitter file_name pc before st = inr st'
      /\ strip body <> []
      /\ text_splitter body = inl e.
Proof.
  induction content_list as [|[title body] rest IH]; intros st e H; [discriminate|].
  cbn [section_loop_raising] in H. cbv zeta in H.
  destruct (strip body) as [|x xs] eqn:B.
  - destruct (IH _ _ H) as (before & t & b & after & st' & -> & L & Nb & Sb).
    exists ((title, body) :: before), t, b, after, st'.
    split; [reflexivity | split; [|split; assumption]].
    cbn [section_loop_raising]. cbv zeta. now rewrite B.
  - destruct (text_splitter body) as [e'|chunks] eqn:Sp.
    + injection H as ->. exists [], title, body, rest, st.
      split; [reflexivity | split; [reflexivity | split; [|exact Sp]]].
      rewrite B. discriminate.
    + destruct (IH _ _ H) as (before & t & b & after & st' & -> & L & Nb & Sb).
      exists ((title, body) :: before), t, b, after, st'.
      split; [reflexivity | split; [|split; assumption]].
      cbn [section_loop_raising]. cbv zeta. now rewrite B, Sp.
Qed.

Lemma process_body_raises (fs : filesystem) (file_path : str) (e : exn)
      (doc_chunks : list Document) :
  raises (basename file_path) (fs file_path) e doc_chunks ->
  process_body_raising text_splitter fs file_path = inl e.
Proof.
  unfold process_body_raising. intros H.
  destruct H as [|e|e|before e after Hb
                 |pages pc ft before title body after e c acc Hx Hc Hl Hn Hs];
    try reflexivity.
  - now rewrite extract_pages_fails.
  - rewrite Hx. cbv zeta. rewrite Hc, section_loop_raising_app, Hl.
    cbn [section_loop_raising]. cbv zeta.
    destruct (strip body); [congruence|]. now rewrite Hs.
Qed.

(** The try is left by an exception in these ways only. *)
Lemma process_body_raising_inl (fs : filesystem) (file_path : str) (e : exn) :
  process_body_raising text_splitter fs file_path = inl e ->
  exists doc_chunks, raises (basename file_path) (fs file_path) e doc_chunks.
Proof.
  unfold process_body_raising.
  destruct (fs file_path) as [|e'|[pages|e']].
  - intros [= <-]. exists []. constructor.
  - intros [= <-]. exists []. constructor.
  - destruct (extract_pages 0 pages [] []) as [e'|[pc ft]] eqn:X.
    + intros [= <-]. destruct (extract_pages_raises _ _ _ _ X) as (before & after & -> & F).
      exists []. now constructor.
    + cbv zeta.
      destruct (section_loop_raising text_splitter (basename file_path) pc (content_list_of ft) (0, []))
        as [e'|[c docs]] eqn:L; [|discriminate].
      intros [= <-].
      destruct (section_loop_raising_inl _ _ _ _ L)
        as (before & t & b & after & [c acc] & Hc & Hl & Hn & Hs).
      exists acc. eapply raises_split; eassumption.
  - intros [= <-]. exists []. constructor.
Qed.

(** C8, amended.  When the [try] of [process_pdf] is left by an exception,
    raised by [open], [PdfReader], a page or the splitter, the run returns
    the empty list, whatever [doc_chunks] held at that moment, and prints the
    line of the handler that the class of the exception selects: the
    not-found line exactly for a [FileNotFoundError], wherever it was raised,
    and the general line with the message of any other exception.  A missing
    file raises a [FileNotFoundError]. *)
Theorem process_pdf_fails_closed (fs : filesystem) (file_path : str) (e : exn)
        (doc_chunks : list Document) :
  raises (basename file_path) (fs file_path) e doc_chunks ->
  process_pdf_raising text_splitter fs file_path
  = ([started_line file_path; handler_line file_path e], [])
  /\ (handler_line file_path e = not_found_line file_path <-> e = FileNotFoundError)
  /\ (forall msg, handler_line file_path e = unexpected_line msg <-> e = OtherException msg)
  /\ (fs file_path = Missing -> e = FileNotFoundError).
Proof.
  intros H. unfold process_pdf_raising.
  rewrite (@process_body_raises fs file_path e doc_chunks H).
  split; [now destruct e | split; [apply handler_line_not_found | split]].
  - intros msg. destruct e as [|m]; simpl.
    + split; discriminate.
    + unfold unexpected_line. split.
      * intros E. apply app_inv_head in E. now subst.
      * now intros [= ->].
  - intros Hm. rewrite Hm in H. now inversion H.
Qed.

End Raising.

Section WithSplitter.

(** Every property holds whatever the splitter of langchain returns. *)
Variable splitter : nat -> nat -> list str -> str -> list str.

(** With a splitter that returns, the run is that of [process_pdf]. *)
Lemma section_loop_raising_returns file_name pc (content_list : list (str * str)) :
  forall st,
    section_loop_raising (fun s => inr (split_text splitter s)) file_name pc content_list st
    = inr (section_loop splitter file_name pc content_list st).
Proof.
  induction content_list as [|[title body] rest IH]; intros st; [reflexivity|].
  cbn [section_loop_raising section_loop]. cbv zeta.
  destruct (strip body); apply IH.
Qed.

Lemma process_pdf_raising_returns (fs : filesystem) (file_path : str) :
  process_pdf_raising (fun s => inr (split_text splitter s)) fs file_path
  = process_pdf splitter fs file_path.
Proof.
  unfold process_pdf_raising, process_pdf, process_body_raising, process_body.
  destruct (fs file_path) as [|e|[pages|e]]; try reflexivity.
  destruct (extract_pages 0 pages [] []) as [e|[pc ft]]; [reflexivity|].
  cbv zeta. rewrite section_loop_raising_returns.
  now destruct (section_loop splitter (basename file_path) pc (content_list_of ft) (0, [])).
Qed.

(** C9.  A document none of whose pages yields text gives the empty list,
    through the normal return: the last line printed is the summary, for 0
    chunks from the 1 section "General". *)
Theorem process_pdf_no_text (fs : filesystem) (file_path : str) (pages : list page_src) :
  fs file_path = Opened (Reader pages) ->
  Forall (fun p => p = Extracted []) pages ->
  process_pdf splitter fs file_path
  = ([started_line file_path;
      lit "Document processed. Generated 0 chunks from 1 sections."], []).
Proof.
  intros Hfs Hp. unfold DocumentProcessor.process_pdf, DocumentProcessor.process_body.
  rewrite Hfs, (extract_pages_no_text Hp). reflexivity.
Qed.

(** The identifier that the counter value [i] gives. *)
Definition chunk_id_of (i : nat) : str := lit "chunk_" ++ str_of_nat i.

Definition id_of (d : Document) : str := chunk_id (metadata d).

Lemma chunk_id_of_inj (m n : nat) : chunk_id_of m = chunk_id_of n -> m = n.
Proof.
  unfold chunk_id_of. intros H. apply app_inv_head in H. now apply str_of_nat_inj.
Qed.

(** What a run of the loops adds to [doc_chunks]: identifiers numbered from
    the counter on, and pages found by [find_page]. *)
Definition appended (pages_content : list page_info) (c : nat) (new : list Document) : Prop :=
  map id_of new = map chunk_id_of (seq c (length new))
  /\ Forall (fun d => page (metadata d) = find_page pages_content (page_content d)) new.

Lemma appended_app pc c new1 new2 :
  appended pc c new1 -> appended pc (c + length new1) new2 -> appended pc c (new1 ++ new2).
Proof.
  intros [H1 F1] [H2 F2]. split.
  - rewrite map_app, length_app, seq_app, map_app. now rewrite H1, H2.
  - apply Forall_app. now split.
Qed.

Lemma chunk_loop_appends file_name title pc chunks :
  forall c acc, exists new,
    chunk_loop file_name title pc chunks (c, acc) = (c + length new, acc ++ new)
    /\ appended pc c new.
Proof.
  induction chunks as [|t chunks IH]; intros c acc.
  - exists []. simpl. rewrite Nat.add_0_r, app_nil_r. repeat split. constructor.
  - cbn [chunk_loop]. cbv zeta.
    set (d := {| page_content := t; metadata := _ |}).
    destruct (IH (S c) (acc ++ [d])) as [new [E A]].
    exists (d :: new). split.
    + rewrite E. simpl. rewrite <- app_assoc. f_equal. lia.
    + apply (appended_app (new1 := [d])).
      * split; [reflexivity | constructor; [reflexivity | constructor]].
      * simpl. now rewrite Nat.add_1_r.
Qed.

Lemma section_loop_appends file_name pc content_list :
  forall c acc, exists new,
    section_loop splitter file_name pc content_list (c, acc) = (c + length new, acc ++ new)
    /\ appended pc c new.
Proof.
  induction content_list as [|[title body] rest IH]; intros c acc.
  - exists []. simpl. rewrite Nat.add_0_r, app_nil_r. repeat split. constructor.
  - cbn [section_loop]. cbv zeta. destruct (strip body) as [|x xs].
    + apply IH.
    + destruct (chunk_loop_appends file_name (strip title) pc (split_text splitter body) c acc)
        as [new1 [E1 A1]].
      rewrite E1.
      destruct (IH (c + length new1) (acc ++ new1)) as [new2 [E2 A2]].
      exists (new1 ++ new2). split.
      * rewrite E2, length_app, <- app_assoc. f_equal. lia.
      * now apply appended_app.
Qed.

(** The chunks of a run are those that the section loop appends, from the
    counter 0 and the empty list, over the page mapping of the document. *)
Lemma process_pdf_chunks (fs : filesystem) (file_path : str) :
  snd (process_pdf splitter fs file_path) = []
  \/ exists pages pages_content full_text,
       fs file_path = Opened (Reader pages)
       /\ extract_pages 0 pages [] [] = inr (pages_content, full_text)
       /\ appended pages_content 0 (snd (process_pdf splitter fs file_path)).
Proof.
  unfold process_pdf.
  destruct (process_body splitter fs file_path) as [[|msg]|[docs printed]] eqn:B;
    try (left; reflexivity).
  right. cbn [snd]. revert B. unfold process_body.
  destruct (fs file_path) as [|msg|[pages|msg]]; try discriminate.
  destruct (extract_pages 0 pages [] []) as [e|[pc ft]] eqn:E; try discriminate.
  destruct (section_loop_appends (basename file_path) pc (content_list_of ft) 0 [])
    as [new [E2 A]].
  rewrite E2. intros [= <- _].
  exists pages, pc, ft. split; [reflexivity | split; [exact E | exact A]].
Qed.

(** C6.  The identifiers of the chunks of one run are "chunk_0", "chunk_1",
    and so on in output order, one counter for the whole document: two chunks
    at positions [i < j] carry the counter values [i < j], and their
    identifiers differ. *)
Theorem process_pdf_chunk_ids_increasing (fs : filesystem) (file_path : str) :
  let ids := map id_of (snd (process_pdf splitter fs file_path)) in
  ids = map chunk_id_of (seq 0 (length ids))
  /\ NoDup ids
  /\ forall i j a b,
       i < j -> nth_error ids i = Some a -> nth_error ids j = Some b ->
       a = chunk_id_of i /\ b = chunk_id_of j /\ a <> b.
Proof.
  intros ids.
  assert (Hids : ids = map chunk_id_of (seq 0 (length ids))).
  { subst ids. rewrite length_map.
    destruct (process_pdf_chunks fs file_path) as [-> | (pages & pc & ft & _ & _ & H & _)];
      [reflexivity | exact H]. }
  assert (Hnth : forall i a, nth_error ids i = Some a -> a = chunk_id_of i).
  { intros i a H. rewrite Hids, nth_error_map, nth_error_seq in H.
    destruct (i <? length ids); [|discriminate].
    simpl in H. now injection H as <-. }
  split; [exact Hids | split].
  - rewrite Hids. apply Finite.Injective_map_NoDup; [|apply seq_NoDup].
    intros m n. apply chunk_id_of_inj.
  - intros i j a b Hij Ha Hb.
    apply Hnth in Ha, Hb. subst a b. repeat split.
    intros C. apply chunk_id_of_inj in C. lia.
Qed.

(** The text that is searched for is a leading part of the chunk, of at least
    50 characters, or the whole chunk when the chunk is shorter. *)
Definition leading_needle (chunk needle : str) : Prop :=
  (exists rest, chunk = needle ++ rest)
  /\ (50 <= length chunk -> 50 <= length needle)
  /\ (length chunk < 50 -> needle = chunk).

(** The page of the first entry of the mapping whose text contains the
    needle, or "N/A" when no entry does. *)
Inductive first_page_containing (needle : str) : list page_info -> page_meta -> Prop :=
| first_found before p after :
    Forall (fun q => ~ occurs_in needle (text q)) before ->
    occurs_in needle (text p) ->
    first_page_containing needle (before ++ p :: after) (PageNum (page_no p))
| none_found pages_content :
    Forall (fun q => ~ occurs_in needle (text q)) pages_content ->
    first_page_containing needle pages_content PageNA.

Definition needle_of (chunk_text : str) : str :=
  slice_to (Z.max 50 (len chunk_text)) chunk_text.

(** The bound of the slice is never below the length. *)
Lemma needle_of_whole (chunk_text : str) : needle_of chunk_text = chunk_text.
Proof.
  unfold needle_of. apply slice_to_all. lia.
Qed.

Lemma needle_of_leading (chunk_text : str) :
  leading_needle chunk_text (needle_of chunk_text).
Proof.
  rewrite needle_of_whole. split; [|split].
  - exists []. now rewrite app_nil_r.
  - trivial.
  - trivial.
Qed.

Lemma find_page_first (pages_content : list page_info) (chunk_text : str) :
  first_page_containing (needle_of chunk_text) pages_content
                        (find_page pages_content chunk_text).
Proof.
  induction pages_content as [|p pc IH]; simpl.
  - apply none_found. constructor.
  - fold (needle_of chunk_text).
    destruct (contains (needle_of chunk_text) (text p)) eqn:E.
    + apply contains_spec in E. apply (first_found (before := [])); [constructor | exact E].
    + apply contains_false in E. inversion IH as [before q after Hb Hq Hpc Hr | pc' Hall Hr].
      * apply (first_found (before := p :: before)); [now constructor | exact Hq].
      * apply none_found. now constructor.
Qed.

(** The page mapping lists the pages that have text, in document order, under
    their 1-based numbers. *)
Lemma extract_pages_mapping (pages : list page_src) :
  forall n pc0 ft0 pc ft,
    extract_pages n pages pc0 ft0 = inr (pc, ft) ->
    exists new,
      pc = pc0 ++ new
      /\ StronglySorted lt (map page_no new)
      /\ Forall (fun q => n < page_no q
                          /\ nth_error pages (page_no q - S n) = Some (Extracted (text q))
                          /\ text q <> []) new.
Proof.
  induction pages as [|p pages IH]; intros n pc0 ft0 pc ft H; simpl in H.
  - injection H as <- <-. exists []. rewrite app_nil_r. repeat constructor.
  - destruct p as [[|c t]|msg]; [| |discriminate].
    + destruct (IH _ _ _ _ _ H) as [new [-> [Hs Hf]]].
      exists new. repeat split; [exact Hs|].
      eapply Forall_impl; [|exact Hf]. intros q (Hlt & Hn & Ht).
      repeat split; [lia | | exact Ht].
      replace (page_no q - S n) with (S (page_no q - S (S n))) by lia. exact Hn.
    + destruct (IH _ _ _ _ _ H) as [new [-> [Hs Hf]]].
      exists ({| text := c :: t; page_no := n + 1 |} :: new).
      rewrite <- app_assoc. repeat split.
      * simpl. constructor; [exact Hs|].
        apply Forall_map. eapply Forall_impl; [|exact Hf]. intros q (Hlt & _). lia.
      * constructor.
        -- simpl. replace (n + 1 - S n) with 0 by lia. repeat split; [lia | discriminate].
        -- eapply Forall_impl; [|exact Hf]. intros q (Hlt & Hn & Ht).
           repeat split; [lia | | exact Ht].
           replace (page_no q - S n) with (S (page_no q - S (S n))) by lia. exact Hn.
Qed.

(** C1.  Each chunk that [process_pdf] returns carries the page of the first
    entry of the page mapping, taken in document order, whose text contains
    the searched text of the chunk, and "N/A" when no entry contains it; the
    searched text is a leading part of the chunk of at least 50 characters,
    or the whole chunk when that is shorter. *)
Theorem process_pdf_page_of_chunk (fs : filesystem) (file_path : str) (d : Document) :
  In d (snd (process_pdf splitter fs file_path)) ->
  exists pages pages_content full_text,
    fs file_path = Opened (Reader pages)
    /\ extract_pages 0 pages [] [] = inr (pages_content, full_text)
    /\ StronglySorted lt (map page_no pages_content)
    /\ leading_needle (page_content d) (needle_of (page_content d))
    /\ first_page_containing (needle_of (page_content d)) pages_content
                             (page (metadata d)).
Proof.
  intros Hd.
  destruct (process_pdf_chunks fs file_path) as [E | (pages & pc & ft & Hfs & Hx & _ & Hp)].
  - rewrite E in Hd. destruct Hd.
  - exists pages, pc, ft. repeat split; try assumption.
    + destruct (extract_pages_mapping _ _ _ _ Hx) as [new [-> [Hs _]]]. exact Hs.
    + apply needle_of_leading.
    + apply needle_of_leading.
    + apply needle_of_leading.
    + rewrite Forall_forall in Hp. rewrite (Hp d Hd). apply find_page_first.
Qed.

End WithSplitter.

End ChunkerProps.

(** ** The matching engine *)

Module ReFacts.
Import PyStr Re.

Lemma last_before_cons (prev : option ascii) (c : ascii) (s : str) (j : nat) :
  last_before prev (c :: s) (S j) = last_before (Some c) s j.
Proof. destruct j; reflexivity. Qed.

Section Greedy.

Variables (cls : ascii -> bool) (k : cont) (g : span).

(** The repetition may stop after [j] characters. *)
Definition reachable (lo : nat) (s : str) (j : nat) : Prop :=
  lo <= j /\ j <= length s /\ Forall (fun x => cls x = true) (firstn j s).

(** The rest of the pattern, tried after [j] characters. *)
Definition k_at (prev : option ascii) (pos : nat) (s : str) (j : nat) : option mres :=
  k (last_before prev s j) (pos + j) (skipn j s) g.

Lemma reachable_0 lo s : reachable lo s 0 <-> lo = 0.
Proof.
  unfold reachable. simpl. split; [lia|].
  intros ->. split; [lia | split; [lia | constructor]].
Qed.

Lemma reachable_S lo c s j :
  reachable lo (c :: s) (S j) <-> cls c = true /\ reachable (pred lo) s j.
Proof.
  unfold reachable. simpl. split.
  - intros (H1 & H2 & H3). inversion H3; subst.
    split; [assumption | split; [lia | split; [lia | assumption]]].
  - intros (H0 & H1 & H2 & H3). split; [lia | split; [lia | now constructor]].
Qed.

Lemma k_at_0 prev pos s : k_at prev pos s 0 = k prev pos s g.
Proof. unfold k_at. simpl. now rewrite Nat.add_0_r. Qed.

Lemma k_at_S prev pos c s j : k_at prev pos (c :: s) (S j) = k_at (Some c) (S pos) s j.
Proof.
  unfold k_at. rewrite last_before_cons. simpl. now rewrite Nat.add_succ_r.
Qed.

(** Greedy repetition stops at the last place from which the rest of the
    pattern succeeds, and fails when there is no such place. *)
Lemma greedy_spec (s : str) :
  forall lo prev pos,
    match greedy cls k lo prev pos s g with
    | Some r =>
        exists j, reachable lo s j /\ k_at prev pos s j = Some r
                  /\ forall j', j < j' -> reachable lo s j' -> k_at prev pos s j' = None
    | None => forall j, reachable lo s j -> k_at prev pos s j = None
    end.
Proof.
  induction s as [|c s IH]; intros lo prev pos; simpl.
  - destruct (Nat.eqb_spec lo 0) as [->|Hlo].
    + destruct (k prev pos [] g) as [r|] eqn:K.
      * exists 0. rewrite reachable_0, k_at_0. split; [reflexivity | split; [assumption|]].
        intros j' Hj (_ & Hlen & _). simpl in Hlen. lia.
      * intros j (_ & Hlen & _). simpl in Hlen.
        assert (j = 0) as -> by lia. now rewrite k_at_0.
    + intros j (H1 & Hlen & _). simpl in Hlen. lia.
  - destruct (cls c) eqn:C.
    + specialize (IH (pred lo) (Some c) (S pos)).
      destruct (greedy cls k (pred lo) (Some c) (S pos) s g) as [r|].
      * destruct IH as (j & R & Kj & M). exists (S j).
        rewrite reachable_S, k_at_S.
        split; [split; assumption | split; [assumption|]].
        intros [|m] Hm R'; [lia|].
        rewrite k_at_S. apply M; [lia|]. now apply reachable_S in R'.
      * destruct (Nat.eqb_spec lo 0) as [->|Hlo].
        -- destruct (k prev pos (c :: s) g) as [r|] eqn:K.
           ++ exists 0. rewrite reachable_0, k_at_0. split; [reflexivity | split; [assumption|]].
              intros [|m] Hm R'; [lia|].
              rewrite k_at_S. apply IH. now apply reachable_S in R'.
           ++ intros [|m] R'; [now rewrite k_at_0|].
              rewrite k_at_S. apply IH. now apply reachable_S in R'.
        -- intros [|m] R'; [apply reachable_0 in R'; contradiction|].
           rewrite k_at_S. apply IH. now apply reachable_S in R'.
    + assert (Hno : forall m, ~ reachable lo (c :: s) (S m)).
      { intros m R'. apply reachable_S in R'. destruct R' as [C' _]. congruence. }
      destruct (Nat.eqb_spec lo 0) as [->|Hlo].
      * destruct (k prev pos (c :: s) g) as [r|] eqn:K.
        -- exists 0. rewrite reachable_0, k_at_0. split; [reflexivity | split; [assumption|]].
           intros [|m] Hm R'; [lia | now apply Hno in R'].
        -- intros [|m] R'; [now rewrite k_at_0 | now apply Hno in R'].
      * intros [|m] R'; [apply reachable_0 in R'; contradiction | now apply Hno in R'].
Qed.

End Greedy.

(** [search] finds the leftmost position at which an attempt succeeds. *)
Lemma search_spec (p : list node) (s : str) :
  forall prev,
    match search p prev s with
    | Some (i, r) =>
        i <= length s
        /\ match_at p (last_before prev s i) (skipn i s) = Some r
        /\ forall i', i' < i -> match_at p (last_before prev s i') (skipn i' s) = None
    | None =>
        forall i, i <= length s -> match_at p (last_before prev s i) (skipn i s) = None
    end.
Proof.
  induction s as [|c s IH]; intros prev; simpl.
  - destruct (match_at p prev []) as [r|] eqn:M.
    + split; [lia | split; [exact M | intros i' Hi; lia]].
    + intros i Hi. assert (i = 0) as -> by lia. exact M.
  - destruct (match_at p prev (c :: s)) as [r|] eqn:M.
    + split; [lia | split; [exact M | intros i' Hi; lia]].
    + specialize (IH (Some c)).
      destruct (search p (Some c) s) as [[i r]|].
      * destruct IH as (Hi & Hm & Hmin). split; [|split].
        -- lia.
        -- rewrite last_before_cons. exact Hm.
        -- intros [|i'] Hlt; [exact M|].
           rewrite last_before_cons. apply Hmin. lia.
      * intros [|i] Hi; [exact M|].
        rewrite last_before_cons. apply IH. lia.
Qed.

End ReFacts.

(** ** Section headers *)

Module HeaderProps.
Import PyStr PyStrFacts Re ReFacts DocumentProcessor.

(** The text of a header: an uppercase letter, then 5 or more characters
    among uppercase letters, digits, whitespace, hyphens and colons. *)
Definition header_shape (h : str) : Prop :=
  exists c rest,
    h = c :: rest /\ upper c = true
    /\ Forall (fun x => title_char x = true) rest /\ 5 <= length rest.

(** A place where a line begins: the start of the text, or just after a
    newline. *)
Definition line_start (pre : str) : Prop :=
  pre = [] \/ exists pre', pre = pre' ++ [nl].

(** [h] stands in [text] after [pre], at the start of a line, with a newline
    and then [post] behind it. *)
Definition header_at (text pre h post : str) : Prop :=
  text = pre ++ h ++ nl :: post /\ line_start pre /\ header_shape h.

(** The character before the position that [done] leads to. *)
Definition prev_of (done : str) : option ascii := last_before None done (length done).

(** What follows the repetition in the pattern: the end of the group and the
    newline. *)
Definition after_title : cont := run [Close; Cls newline] accept.

Lemma after_title_eq (prev : option ascii) (pos : nat) (s : str) (g : span) :
  after_title prev pos s g =
  match s with
  | c :: _ => if newline c then Some (S pos, (fst g, pos)) else None
  | [] => None
  end.
Proof. destruct s; reflexivity. Qed.

Lemma prev_of_snoc (l : str) (x : ascii) : prev_of (l ++ [x]) = Some x.
Proof.
  unfold prev_of. rewrite length_app. simpl. rewrite Nat.add_1_r. simpl.
  rewrite nth_error_app2 by lia. now rewrite Nat.sub_diag.
Qed.

Lemma line_start_prev_of (pre : str) :
  at_line_start (prev_of pre) = true <-> line_start pre.
Proof.
  induction pre as [|x pre' _] using rev_ind.
  - split; [now left | reflexivity].
  - rewrite prev_of_snoc. simpl. rewrite Ascii.eqb_eq. split.
    + intros ->. right. now exists pre'.
    + intros [H | [p H]].
      * now destruct pre'.
      * now apply app_inj_tail in H.
Qed.

Lemma firstn_S_nth_error (A : Type) (l : list A) (m : nat) (x : A) :
  nth_error l m = Some x -> firstn (S m) l = firstn m l ++ [x].
Proof.
  revert l. induction m as [|m IH]; intros [|y l] H; simpl in H; try discriminate.
  - now injection H as ->.
  - simpl. f_equal. now apply IH.
Qed.

Lemma nth_error_split_at (A : Type) (l : list A) (m : nat) (x : A) :
  nth_error l m = Some x -> l = firstn m l ++ x :: skipn (S m) l.
Proof.
  revert l. induction m as [|m IH]; intros [|y l] H; simpl in H; try discriminate.
  - now injection H as ->.
  - simpl. f_equal. now apply IH.
Qed.

Lemma hd_skipn_nth_error (A : Type) (l : list A) (j : nat) :
  hd_error (skipn j l) = nth_error l j.
Proof.
  revert l. induction j as [|j IH]; intros [|y l]; simpl; try reflexivity. apply IH.
Qed.

Lemma last_before_prev_of (done s : str) (i : nat) :
  i <= length s -> last_before (prev_of done) s i = prev_of (done ++ firstn i s).
Proof.
  intros Hi. destruct i as [|m]; cbn [last_before].
  - simpl. now rewrite app_nil_r.
  - destruct (nth_error s m) as [x|] eqn:E.
    + rewrite (firstn_S_nth_error _ _ E), app_assoc. now rewrite prev_of_snoc.
    + apply nth_error_None in E. lia.
Qed.

(** The rest of the pattern succeeds exactly on a newline. *)
Lemma k_at_after_title (prev : option ascii) (pos : nat) (s : str) (j : nat) (r : mres) :
  k_at after_title (0, 0) prev pos s j = Some r
  <-> nth_error s j = Some nl /\ r = (S (pos + j), (0, pos + j)).
Proof.
  unfold k_at. rewrite after_title_eq, <- hd_skipn_nth_error.
  destruct (skipn j s) as [|x t]; cbn [hd_error fst].
  - split; [discriminate | intros [H _]; discriminate].
  - unfold newline. destruct (Ascii.eqb_spec x nl) as [->|Hx].
    + split; [intros [= <-]; now split | intros [_ ->]; reflexivity].
    + split; [discriminate | intros [[= H] _]; congruence].
Qed.

Lemma match_at_unfold (prev : option ascii) (s : str) :
  match_at section_pattern prev s =
  if at_line_start prev then
    match s with
    | c :: s' => if upper c then greedy title_char after_title 5 (Some c) 1 s' (0, 0) else None
    | [] => None
    end
  else None.
Proof. reflexivity. Qed.

(** A header text followed by a newline, as the repetition sees it. *)
Lemma header_reachable (c : ascii) (s h post : str) :
  c :: s = h ++ nl :: post -> header_shape h ->
  exists j, length h = S j /\ upper c = true
            /\ reachable title_char 5 s j /\ nth_error s j = Some nl.
Proof.
  intros E (c' & rest & -> & Hu & Hr & Hl). simpl in E. injection E as <- ->.
  exists (length rest). repeat split; try assumption.
  - rewrite length_app. simpl. lia.
  - rewrite firstn_app, Nat.sub_diag, firstn_all. simpl. now rewrite app_nil_r.
  - rewrite nth_error_app2, Nat.sub_diag by lia. reflexivity.
Qed.

(** A successful attempt: the group is the longest header text at the
    position, the match is the group and the newline behind it. *)
Lemma match_at_some (prev : option ascii) (s : str) (e o c : nat) :
  match_at section_pattern prev s = Some (e, (o, c)) ->
  at_line_start prev = true /\ o = 0 /\ e = S c
  /\ s = firstn c s ++ nl :: skipn (S c) s
  /\ length (firstn c s) = c
  /\ header_shape (firstn c s)
  /\ forall h' post', s = h' ++ nl :: post' -> header_shape h' -> length h' <= c.
Proof.
  rewrite match_at_unfold. destruct (at_line_start prev); [|discriminate].
  destruct s as [|c0 s]; [discriminate|].
  destruct (upper c0) eqn:U; [|discriminate].
  intros G. pose proof (greedy_spec title_char after_title (0, 0) s 5 (Some c0) 1) as Gs.
  rewrite G in Gs. destruct Gs as (j & (R1 & R2 & R3) & Kj & M).
  apply k_at_after_title in Kj. destruct Kj as [Hnl [= -> -> ->]].
  split; [reflexivity | split; [reflexivity | split; [reflexivity|]]].
  simpl. split; [|split; [|split]].
  - f_equal. now apply nth_error_split_at.
  - rewrite length_firstn. lia.
  - exists c0, (firstn j s). rewrite length_firstn. repeat split; try assumption. lia.
  - intros h' post' E Hh.
    destruct (@header_reachable _ _ _ _ E Hh) as (j' & -> & _ & R' & Hnl').
    destruct (Nat.le_gt_cases j' j) as [Hle|Hgt]; [lia|].
    specialize (M j' Hgt R').
    assert (K : k_at after_title (0, 0) (Some c0) 1 s j' = Some (S (1 + j'), (0, 1 + j')))
      by (apply k_at_after_title; now split).
    congruence.
Qed.

(** A failed attempt at a line start: no header text stands there. *)
Lemma match_at_none (prev : option ascii) (s : str) :
  match_at section_pattern prev s = None ->
  at_line_start prev = true ->
  forall h' post', s = h' ++ nl :: post' -> ~ header_shape h'.
Proof.
  rewrite match_at_unfold. intros G Hp h' post' E Hh. rewrite Hp in G.
  destruct s as [|c0 s].
  - destruct Hh as (c' & rest & -> & _). discriminate.
  - destruct (@header_reachable _ _ _ _ E Hh) as (j' & _ & U & R' & Hnl').
    rewrite U in G.
    pose proof (greedy_spec title_char after_title (0, 0) s 5 (Some c0) 1) as Gs.
    rewrite G in Gs. specialize (Gs j' R').
    assert (K : k_at after_title (0, 0) (Some c0) 1 s j' = Some (S (1 + j'), (0, 1 + j')))
      by (apply k_at_after_title; now split).
    congruence.
Qed.

Lemma app_split_at (A : Type) (pre t : list A) :
  firstn (length pre) (pre ++ t) = pre /\ skipn (length pre) (pre ++ t) = t.
Proof.
  split.
  - rewrite firstn_app, Nat.sub_diag, firstn_all. simpl. apply app_nil_r.
  - rewrite skipn_app, Nat.sub_diag, skipn_all. reflexivity.
Qed.

(** A successful search: the leftmost header, taken as long as possible. *)
Lemma search_some (done s : str) (i e o c : nat) :
  search section_pattern (prev_of done) s = Some (i, (e, (o, c))) ->
  let pre := firstn i s in
  let h := firstn c (skipn i s) in
  let rest := skipn (i + e) s in
  o = 0 /\ e = S c
  /\ s = pre ++ h ++ nl :: rest
  /\ line_start (done ++ pre) /\ header_shape h
  /\ (forall pre' h' post',
        s = pre' ++ h' ++ nl :: post' -> line_start (done ++ pre') -> header_shape h' ->
        length pre <= length pre' /\ (length pre' = length pre -> length h' <= length h))
  /\ last_before (prev_of done) s (i + e) = prev_of (done ++ pre ++ h ++ [nl]).
Proof.
  intros H pre h rest.
  pose proof (search_spec section_pattern s (prev_of done)) as Sp. rewrite H in Sp.
  destruct Sp as (Hi & Hm & Hmin).
  rewrite last_before_prev_of in Hm by assumption.
  apply match_at_some in Hm. destruct Hm as (Hls & -> & -> & Hs & Hlen & Hsh & Hmax).
  assert (Hpre : length pre = i) by (subst pre; rewrite length_firstn; lia).
  assert (Hrest : skipn (S c) (skipn i s) = rest)
    by (subst rest; rewrite skipn_skipn; f_equal; lia).
  assert (Es : s = pre ++ h ++ nl :: rest).
  { rewrite <- (firstn_skipn i s) at 1. fold pre. f_equal. rewrite <- Hrest. exact Hs. }
  split; [reflexivity | split; [reflexivity | split; [exact Es|]]].
  split; [now apply line_start_prev_of | split; [exact Hsh | split]].
  - intros pre' h' post' E' Hl' Hh'.
    destruct (app_split_at pre' (h' ++ nl :: post')) as [F K]. rewrite <- E' in F, K.
    assert (Hle : length pre' <= length s)
      by (rewrite E', length_app; lia).
    destruct (Nat.lt_ge_cases (length pre') i) as [Hlt|Hge].
    + exfalso. specialize (Hmin _ Hlt).
      rewrite last_before_prev_of, F in Hmin by assumption.
      exact (@match_at_none _ _ Hmin (proj2 (line_start_prev_of _) Hl') h' post' K Hh').
    + split; [lia|]. intros Heq. rewrite Hpre in Heq.
      fold h in Hlen. rewrite Hlen. apply (Hmax h' post'); [|exact Hh'].
      now rewrite <- Heq, K.
  - rewrite Nat.add_succ_r. cbn [last_before].
    replace (done ++ pre ++ h ++ [nl]) with ((done ++ pre ++ h) ++ [nl])
      by (now rewrite <- !app_assoc).
    rewrite prev_of_snoc, Es, app_assoc, nth_error_app2
      by (rewrite length_app; fold h in Hlen; lia).
    rewrite length_app. fold h in Hlen.
    replace (i + c - (length pre + length h)) with 0 by lia. reflexivity.
Qed.

(** A failed search: no header at any line start. *)
Lemma search_none (done s : str) :
  search section_pattern (prev_of done) s = None ->
  forall pre' h' post',
    s = pre' ++ h' ++ nl :: post' -> line_start (done ++ pre') -> ~ header_shape h'.
Proof.
  intros H pre' h' post' E' Hl' Hh'.
  pose proof (search_spec section_pattern s (prev_of done)) as Sp. rewrite H in Sp.
  destruct (app_split_at pre' (h' ++ nl :: post')) as [F K]. rewrite <- E' in F, K.
  assert (Hle : length pre' <= length s) by (rewrite E', length_app; lia).
  specialize (Sp _ Hle). rewrite last_before_prev_of, F in Sp by assumption.
  exact (@match_at_none _ _ Sp (proj2 (line_start_prev_of _) Hl') h' post' K Hh').
Qed.

(** One step of [split] on the section pattern. *)
Lemma split_from_step (fuel : nat) (done s : str) :
  split_from (S fuel) section_pattern (prev_of done) s =
  match search section_pattern (prev_of done) s with
  | None => [s]
  | Some (i, (e, (o, c))) =>
      let pre := firstn i s in
      let h := firstn c (skipn i s) in
      pre :: h :: split_from fuel section_pattern
                    (prev_of (done ++ pre ++ h ++ [nl])) (skipn (i + e) s)
  end.
Proof.
  cbn [split_from].
  destruct (search section_pattern (prev_of done) s) as [[i [e [o c]]]|] eqn:H; [|reflexivity].
  destruct (search_some _ _ H) as (-> & -> & _ & _ & _ & _ & Hp).
  cbv zeta. rewrite Hp, Nat.sub_0_r, Nat.add_0_r. reflexivity.
Qed.

(** The first piece of a split is a leading part of the text. *)
Lemma split_from_head (fuel : nat) (done s : str) :
  exists x l post, split_from fuel section_pattern (prev_of done) s = x :: l /\ s = x ++ post.
Proof.
  destruct fuel as [|fuel].
  - exists s, [], []. simpl. now rewrite app_nil_r.
  - rewrite split_from_step.
    destruct (search section_pattern (prev_of done) s) as [[i [e [o c]]]|] eqn:H.
    + cbv zeta. eexists _, _, (skipn i s). split; [reflexivity|].
      now rewrite firstn_skipn.
    + exists s, [], []. now rewrite app_nil_r.
Qed.

(** The fuel given by [split] is enough: more fuel changes nothing. *)
Lemma split_from_fuel (f1 : nat) :
  forall f2 done s,
    length s < f1 -> length s < f2 ->
    split_from f1 section_pattern (prev_of done) s
    = split_from f2 section_pattern (prev_of done) s.
Proof.
  induction f1 as [|f1 IH]; intros [|f2] done s H1 H2; try lia.
  rewrite !split_from_step.
  destruct (search section_pattern (prev_of done) s) as [[i [e [o c]]]|] eqn:H; [|reflexivity].
  destruct (search_some _ _ H) as (_ & -> & Es & _).
  cbv zeta. do 2 f_equal.
  assert (length (skipn (i + S c) s) < length s).
  { rewrite length_skipn. apply (f_equal (@length ascii)) in Es.
    rewrite !length_app in Es. simpl in Es. lia. }
  apply IH; lia.
Qed.

(** The (title, content) pairs of a split. *)
Definition pairs_of (sections : list str) : list (str * str) :=
  combine (stride2 (skipn 1 sections)) (stride2 (skipn 2 sections)).

Lemma pairs_of_step (a t b : str) (l : list str) :
  pairs_of (a :: t :: b :: l) = (t, b) :: pairs_of (b :: l).
Proof.
  unfold pairs_of. simpl. destruct l; reflexivity.
Qed.

(** Every title of a split is a header of the text, and its content follows
    the newline that ends the header. *)
Lemma split_from_titles (fuel : nat) :
  forall done s t b,
    In (t, b) (pairs_of (split_from fuel section_pattern (prev_of done) s)) ->
    exists pre post, header_at (done ++ s) pre t (b ++ post).
Proof.
  induction fuel as [|fuel IH]; intros done s t b HIn.
  - destruct HIn.
  - rewrite split_from_step in HIn.
    destruct (search section_pattern (prev_of done) s) as [[i [e [o c]]]|] eqn:H;
      [|destruct HIn].
    destruct (search_some _ _ H) as (_ & -> & Es & Hl & Hh & _).
    cbv zeta in HIn.
    set (pre := firstn i s) in *. set (h := firstn c (skipn i s)) in *.
    set (rest := skipn (i + S c) s) in *.
    destruct (split_from_head fuel (done ++ pre ++ h ++ [nl]) rest) as (x & l & post & E & Er).
    rewrite E, pairs_of_step in HIn. destruct HIn as [[= <- <-] | HIn].
    + exists (done ++ pre), post. split; [|split; assumption].
      rewrite Es, Er, <- !app_assoc. reflexivity.
    + rewrite <- E in HIn. apply IH in HIn. destruct HIn as (pre' & post' & Ht & Hl' & Hh').
      exists pre', post'. split; [|split; assumption].
      rewrite <- Ht, Es, <- !app_assoc. reflexivity.
Qed.

(** No header stands in [s], read after [done]. *)
Definition no_header (done s : str) : Prop :=
  forall pre h post,
    s = pre ++ h ++ nl :: post -> line_start (done ++ pre) -> ~ header_shape h.

(** [h] after [pre] is the leftmost header of [s], read after [done], and the
    longest at its place. *)
Definition first_header (done s pre h : str) : Prop :=
  line_start (done ++ pre) /\ header_shape h
  /\ forall pre' h' post',
       s = pre' ++ h' ++ nl :: post' -> line_start (done ++ pre') -> header_shape h' ->
       length pre <= length pre' /\ (length pre' = length pre -> length h' <= length h).

(** One pass over the text: [sections_from done s first pairs] cuts [s], read
    after [done], into the text [first] before its first header and the
    (title, content) pairs from there on, each search starting behind the
    newline of the header before. *)
Inductive sections_from (done : str) : str -> str -> list (str * str) -> Prop :=
| no_more s :
    no_header done s ->
    sections_from done s s []
| next_header pre h rest body tail :
    first_header done (pre ++ h ++ nl :: rest) pre h ->
    sections_from (done ++ pre ++ h ++ [nl]) rest body tail ->
    sections_from done (pre ++ h ++ nl :: rest) pre ((h, body) :: tail).

(** The pieces of a split, from the pairs. *)
Fixpoint flat (pairs : list (str * str)) : list str :=
  match pairs with
  | [] => []
  | (t, b) :: tail => t :: b :: flat tail
  end.

Lemma pairs_of_flat (pairs : list (str * str)) :
  forall first, pairs_of (first :: flat pairs) = pairs.
Proof.
  induction pairs as [|[t b] tail IH]; intros first; [reflexivity|].
  cbn [flat]. rewrite pairs_of_step. f_equal. apply IH.
Qed.

(** With the fuel that [split] gives, the split is the one pass. *)
Lemma split_from_scan (fuel : nat) :
  forall done s,
    length s < fuel ->
    exists first pairs,
      sections_from done s first pairs
      /\ split_from fuel section_pattern (prev_of done) s = first :: flat pairs.
Proof.
  induction fuel as [|fuel IH]; intros done s Hf; [lia|].
  rewrite split_from_step.
  destruct (search section_pattern (prev_of done) s) as [[i [e [o c]]]|] eqn:H.
  - destruct (search_some _ _ H) as (_ & -> & Es & Hl & Hh & Hmin & _).
    cbv zeta.
    set (pre := firstn i s) in *. set (h := firstn c (skipn i s)) in *.
    set (rest := skipn (i + S c) s) in *.
    assert (Hr : length rest < fuel).
    { apply (f_equal (@length ascii)) in Es. rewrite !length_app in Es. simpl in Es. lia. }
    destruct (IH (done ++ pre ++ h ++ [nl]) rest Hr) as (body & tail & Hs & E).
    exists pre, ((h, body) :: tail). rewrite E. split; [|reflexivity].
    rewrite Es at 1. apply next_header; [|exact Hs].
    rewrite <- Es. split; [exact Hl | split; [exact Hh | exact Hmin]].
  - exists s, []. split; [|reflexivity].
    apply no_more. exact (@search_none _ _ H).
Qed.

Lemma prev_of_nil : prev_of [] = None.
Proof. reflexivity. Qed.

(** The header test in the words of the specification: an uppercase letter
    followed by 6 or more characters among uppercase letters, digits, spaces,
    hyphens and colons. *)
Definition spec_header_char (c : ascii) : bool :=
  upper c || digit c || Ascii.eqb c " "%char || Ascii.eqb c "-"%char || Ascii.eqb c ":"%char.

Definition spec_header_line (line : str) : bool :=
  match line with
  | c :: rest => upper c && forallb spec_header_char rest && (6 <=? length rest)
  | [] => false
  end.

(** C4, as stated, fails: the line "ABCDEF" has only 5 characters after its
    first letter, yet it is taken as the header of a section. *)
Lemma header_with_five_following_characters :
  spec_header_line (lit "ABCDEF") = false
  /\ content_list_of (lit "ABCDEF" ++ nl :: lit "body")
     = [(lit "Introduction", []); (lit "ABCDEF", lit "body")].
Proof.
  split; reflexivity.
Qed.

(** C4, amended.  A header is a text at the start of a line made of an
    uppercase letter and 5 or more characters among uppercase letters,
    digits, whitespace, hyphens and colons, with a newline behind it.  When
    the text has no header it forms the one section "General".  When it has
    one, the text before the leftmost header is the section "Introduction"
    and that header, taken as long as possible, titles the next section.
    Every title is a header of the text, and its content starts right
    behind the newline that ends the header.  The headers are found in one
    pass: each is the leftmost one behind the newline of the header before
    it, taken as long as possible. *)
Theorem content_list_of_headers (full_text : str) :
  (exists intro pairs,
     sections_from [] full_text intro pairs
     /\ content_list_of full_text =
        match pairs with
        | [] => [(lit "General", full_text)]
        | _ :: _ => (lit "Introduction", intro) :: pairs
        end)
  /\ ((forall pre h post, ~ header_at full_text pre h post) ->
      content_list_of full_text = [(lit "General", full_text)])
  /\ (forall pre0 h0 post0,
        header_at full_text pre0 h0 post0 ->
        exists pre h body post tail,
          content_list_of full_text = (lit "Introduction", pre) :: (h, body) :: tail
          /\ header_at full_text pre h (body ++ post)
          /\ length pre <= length pre0
          /\ (length pre0 = length pre -> length h0 <= length h))
  /\ (forall t b,
        In (t, b) (tl (content_list_of full_text)) ->
        exists pre post, header_at full_text pre t (b ++ post)).
Proof.
  split.
  { destruct (@split_from_scan (S (length full_text)) [] full_text (Nat.lt_succ_diag_r _))
      as (first & pairs & Hs & E).
    exists first, pairs. split; [exact Hs|].
    unfold content_list_of, split. rewrite <- prev_of_nil, E.
    fold (pairs_of (first :: flat pairs)). rewrite pairs_of_flat.
    destruct pairs as [|[t b] tail]; [|reflexivity].
    inversion Hs; subst. reflexivity. }
  unfold content_list_of, split. rewrite <- prev_of_nil.
  rewrite split_from_step.
  destruct (search section_pattern (prev_of []) full_text) as [[i [e [o c]]]|] eqn:H.
  - destruct (search_some _ _ H) as (_ & -> & Es & Hl & Hh & Hmin & _).
    cbv zeta.
    set (pre := firstn i full_text) in *. set (h := firstn c (skipn i full_text)) in *.
    set (rest := skipn (i + S c) full_text) in *.
    destruct (split_from_head (length full_text) ([] ++ pre ++ h ++ [nl]) rest)
      as (x & l & post & E & Er).
    rewrite E. cbn [length Nat.ltb Nat.leb nth].
    fold (pairs_of (pre :: h :: x :: l)). rewrite pairs_of_step.
    assert (Hat : header_at full_text pre h (x ++ post)).
    { split; [|split; assumption]. now rewrite <- Er. }
    split; [|split].
    + intros Hno. exfalso. exact (Hno _ _ _ Hat).
    + intros pre0 h0 post0 (E0 & Hl0 & Hh0).
      exists pre, h, x, post, (pairs_of (x :: l)).
      destruct (Hmin _ _ _ E0 Hl0 Hh0) as [Hle Hlong].
      split; [reflexivity | split; [exact Hat | split; assumption]].
    + cbn [tl]. intros t b [[= <- <-] | HIn].
      * exists pre, post. exact Hat.
      * rewrite <- E in HIn. apply split_from_titles in HIn.
        destruct HIn as (pre' & post' & Ht & Hl' & Hh').
        exists pre', post'. split; [|split; assumption].
        rewrite <- Ht, Es, <- !app_assoc. reflexivity.
  - cbn [length Nat.ltb Nat.leb]. split; [|split].
    + reflexivity.
    + intros pre0 h0 post0 (E0 & Hl0 & Hh0). exfalso.
      exact (@search_none _ _ H pre0 h0 post0 E0 Hl0 Hh0).
    + intros t b [].
Qed.

End HeaderProps.

(** ** The pipeline over an empty index *)

Module PipelineProps.
Import PyStr DocumentProcessor Retrieval.

Section EmptyIndex.

Variable score : Type.
Variable load : str -> str + CrossEncoder score.

(** What [get_advanced_retriever] prints over an empty index. *)
Definition empty_index_lines (model_key : str) : list event :=
  [Printed (lit "Initializing advanced retriever with model " ++ model_key ++ lit "...");
   Printed (lit "Retrieving all documents from the vector database...");
   Printed (lit "0 documents retrieved.");
   Printed (lit "WARNING: No documents found in the database. The retriever will not work.")].

(** C5, amended.  Over an index with no chunks [get_advanced_retriever]
    prints a warning and returns None in place of a retriever, and
    [get_rag_chain] returns None in place of a chain; neither raises, and
    there is nothing to run a query through. *)
Theorem empty_index_builds_no_retriever
        (vector_store_manager : VectorStoreManager) (model_key : str) :
  collection vector_store_manager = [] ->
  get_advanced_retriever load vector_store_manager model_key
  = (empty_index_lines model_key, inr None)
  /\ get_rag_chain load model_key vector_store_manager
     = (Printed (lit "Configuring RAG (QA) chain with model: " ++ model_key)
        :: empty_index_lines model_key, inr None)
  /\ forall invoke query,
       spec_retrieve load invoke vector_store_manager model_key query = None.
Proof.
  intros H.
  assert (E : get_advanced_retriever load vector_store_manager model_key
              = (empty_index_lines model_key, inr None)).
  { unfold get_advanced_retriever, get_all_documents. rewrite H. reflexivity. }
  split; [exact E | split].
  - unfold get_rag_chain. rewrite E. reflexivity.
  - intros invoke query. unfold spec_retrieve. rewrite E. reflexivity.
Qed.

End EmptyIndex.

End PipelineProps.

(** ** A worked document *)

Module Examples.
Import PyStr PyStrFacts DocumentProcessor Retrieval.

(** A splitter that keeps each section whole, trimmed. *)
Definition one_chunk : nat -> nat -> list str -> str -> list str :=
  fun _ _ _ s => [strip s].

(** Four pages, the second without text, with headers on pages 3 and 4. *)
Definition policy : list page_src :=
  [Extracted (lit "Policy booklet" ++ [nl]);
   Extracted [];
   Extracted (lit "ELIGIBILITY REQUIREMENTS" ++ nl :: lit "Members aged 18 or more.");
   Extracted (lit "CLAIMS" ++ nl :: lit "Send the form.")].

Definition policy_path : str := lit "docs/policy.pdf".

Definition disk : filesystem :=
  fun p => if list_eq_dec ascii_dec p policy_path then Opened (Reader policy)
           else if list_eq_dec ascii_dec p (lit "docs/blank.pdf")
                then Opened (Reader [Extracted []; Extracted []])
                else if list_eq_dec ascii_dec p (lit "docs/torn.pdf")
                     then Opened (Reader [Extracted (lit "Cover");
                                          ExtractRaises (OtherException (lit "EOF marker not found"))])
                     else if list_eq_dec ascii_dec p (lit "docs/linked.pdf")
                          then Opened (Reader [Extracted (lit "Cover");
                                               ExtractRaises FileNotFoundError])
                          else Missing.

(** A splitter that keeps each section whole, trimmed, and raises on a
    section that mentions a form. *)
Definition fragile : str -> DocumentProcessor.exn + list str :=
  fun s => if contains (lit "form") s
           then inl (OtherException (lit "maximum recursion depth exceeded"))
           else inr [strip s].

Definition chunk (t : string) (p i : nat) (s : string) : Document :=
  {| page_content := lit t;
     metadata := {| source := lit "policy.pdf"; page := PageNum p;
                    chunk_id := lit "chunk_" ++ str_of_nat i; section := lit s |} |}.

Definition policy_chunks : list Document :=
  [chunk "Policy booklet" 1 0 "Introduction";
   chunk "Members aged 18 or more." 3 1 "ELIGIBILITY REQUIREMENTS";
   chunk "Send the form." 4 2 "CLAIMS"].

Example process_pdf_policy :
  process_pdf one_chunk disk policy_path
  = ([lit "Processing file with structural chunking: docs/policy.pdf";
      lit "Document processed. Generated 3 chunks from 3 sections."],
     policy_chunks).
Proof. vm_compute. reflexivity. Qed.

(** A header may run over two lines, whitespace being allowed in it. *)
Example header_over_two_lines :
  content_list_of (lit "intro" ++ nl :: lit "AB" ++ nl :: lit "CDEF" ++ nl :: lit "rest")
  = [(lit "Introduction", lit "intro" ++ [nl]); (lit "AB" ++ nl :: lit "CDEF", lit "rest")].
Proof. vm_compute. reflexivity. Qed.

(** A model that scores a passage by its length. *)
Definition by_length : CrossEncoder Z := map (fun p => Z.of_nat (length (snd p))).

Definition ready : LocalCrossEncoderReranker Z :=
  {| model_name := default_model_name; top_n := 2; cross_encoder := Some by_length |}.

Definition no_model : str -> str + CrossEncoder Z :=
  fun _ => inl (lit "model files not found").

Definition broken : LocalCrossEncoderReranker Z := snd (init no_model 4).

Lemma Zltb_asym (a b : Z) : (a <? b)%Z = true -> (b <? a)%Z = false.
Proof. intros H. apply Z.ltb_lt in H. apply Z.ltb_ge. lia. Qed.

Lemma Zgeb_trans (a b c : Z) :
  (a <? b)%Z = false -> (b <? c)%Z = false -> (a <? c)%Z = false.
Proof. rewrite !Z.ltb_ge. lia. Qed.

Example compress_documents_policy :
  compress_documents Z.ltb ready policy_chunks (lit "who is eligible?")
  = ([Printed (lit "Re-ranking 3 documents with CrossEncoder...");
      Predicted (RerankerProps.pairs_for (lit "who is eligible?") policy_chunks)],
     inr [chunk "Members aged 18 or more." 3 1 "ELIGIBILITY REQUIREMENTS";
          chunk "Policy booklet" 1 0 "Introduction"]).
Proof. vm_compute. reflexivity. Qed.

(** A count below zero is a slice from the end: all candidates but the
    last. *)
Example compress_documents_negative_top_n :
  snd (compress_documents Z.ltb
         {| model_name := default_model_name; top_n := -1; cross_encoder := Some by_length |}
         policy_chunks (lit "who is eligible?"))
  = inr [chunk "Members aged 18 or more." 3 1 "ELIGIBILITY REQUIREMENTS";
         chunk "Policy booklet" 1 0 "Introduction"].
Proof. vm_compute. reflexivity. Qed.

(** The whole chunk is searched for: a chunk of 60 characters that runs over
    two pages is on neither, although its first 50 characters are on the
    first. *)
Definition sixty : str := concat (repeat (lit "0123456789") 6).

Example find_page_whole_chunk :
  find_page [{| text := firstn 55 sixty; page_no := 1 |};
             {| text := skipn 55 sixty; page_no := 2 |}] sixty = PageNA
  /\ contains (firstn 50 sixty) (firstn 55 sixty) = true.
Proof. split; vm_compute; reflexivity. Qed.

Lemma process_pdf_page_of_chunk_witness :
  In (chunk "Members aged 18 or more." 3 1 "ELIGIBILITY REQUIREMENTS")
     (snd (process_pdf one_chunk disk policy_path))
  /\ exists pages pages_content full_text,
       disk policy_path = Opened (Reader pages)
       /\ extract_pages 0 pages [] [] = inr (pages_content, full_text)
       /\ StronglySorted lt (map page_no pages_content)
       /\ ChunkerProps.leading_needle (lit "Members aged 18 or more.")
            (ChunkerProps.needle_of (lit "Members aged 18 or more."))
       /\ ChunkerProps.first_page_containing
            (ChunkerProps.needle_of (lit "Members aged 18 or more."))
            pages_content (PageNum 3).
Proof.
  assert (H : In (chunk "Members aged 18 or more." 3 1 "ELIGIBILITY REQUIREMENTS")
                 (snd (process_pdf one_chunk disk policy_path)))
    by (vm_compute; right; left; reflexivity).
  split; [exact H|].
  exact (@ChunkerProps.process_pdf_page_of_chunk one_chunk disk policy_path _ H).
Defined.

Lemma compress_documents_top_n_sorted_witness :
  (exists all ranked : list (Document * Z),
     Permutation all (combine policy_chunks
                        (by_length (RerankerProps.pairs_for (lit "who is eligible?") policy_chunks)))
     /\ StronglySorted (fun a b => (snd a <? snd b)%Z = false) all
     /\ ranked = firstn (Z.to_nat (top_n ready)) all
     /\ snd (compress_documents Z.ltb ready policy_chunks (lit "who is eligible?"))
        = inr (map fst ranked)
     /\ In (Predicted (RerankerProps.pairs_for (lit "who is eligible?") policy_chunks))
           (fst (compress_documents Z.ltb ready policy_chunks (lit "who is eligible?")))
     /\ (len (map fst ranked) <= top_n ready)%Z)
  /\ compress_documents Z.ltb ready [] (lit "who is eligible?") = ([], inr []).
Proof.
  apply (@RerankerProps.compress_documents_top_n_sorted
           Z Z.ltb Zltb_asym Zgeb_trans ready by_length policy_chunks (lit "who is eligible?")).
  - reflexivity.
  - simpl. lia.
  - discriminate.
Defined.

Lemma compress_documents_model_unavailable_witness :
  cross_encoder broken = None
  /\ compress_documents Z.ltb broken policy_chunks (lit "who is eligible?")
     = ([], inl ModelUnavailable).
Proof.
  split; [reflexivity|].
  apply (@RerankerProps.compress_documents_model_unavailable
           Z Z.ltb broken policy_chunks (lit "who is eligible?")).
  - reflexivity.
  - discriminate.
Defined.

Lemma compress_documents_empty_before_model_witness :
  cross_encoder broken = None
  /\ compress_documents Z.ltb broken [] (lit "who is eligible?") = ([], inr []).
Proof.
  split; [reflexivity|].
  apply (@RerankerProps.compress_documents_empty_before_model
           Z Z.ltb broken (lit "who is eligible?")).
  reflexivity.
Defined.

(** C5, as stated, fails: over the empty index no query returns the empty
    sequence, whatever langchain would answer, because no retriever is
    built. *)
Lemma empty_index_returns_no_sequence :
  spec_retrieve no_model (fun _ _ => inr []) {| collection := [] |}
                (lit "Mistral") (lit "anything")
  <> Some (inr []).
Proof. vm_compute. discriminate. Qed.

Lemma empty_index_builds_no_retriever_witness :
  get_advanced_retriever no_model {| collection := [] |} (lit "Mistral")
  = (PipelineProps.empty_index_lines (lit "Mistral"), inr None)
  /\ get_rag_chain no_model (lit "Mistral") {| collection := [] |}
     = (Printed (lit "Configuring RAG (QA) chain with model: " ++ lit "Mistral")
        :: PipelineProps.empty_index_lines (lit "Mistral"), inr None)
  /\ forall invoke query,
       spec_retrieve no_model invoke {| collection := [] |} (lit "Mistral") query = None.
Proof.
  apply (@PipelineProps.empty_index_builds_no_retriever
           Z no_model {| collection := [] |} (lit "Mistral")).
  reflexivity.
Defined.

(** C8, as stated, fails: the file "docs/linked.pdf" is there and opens, the
    extraction of its second page raises a [FileNotFoundError], and the run
    is reported by the handler of the missing file, not by the general
    one. *)
Lemma extraction_error_reported_as_not_found :
  disk (lit "docs/linked.pdf")
  = Opened (Reader [Extracted (lit "Cover"); ExtractRaises FileNotFoundError])
  /\ process_pdf_raising fragile disk (lit "docs/linked.pdf")
     = ([lit "Processing file with structural chunking: docs/linked.pdf";
         lit "Error: The file was not found at path docs/linked.pdf"], [])
  /\ process_pdf one_chunk disk (lit "docs/linked.pdf")
     = ([lit "Processing file with structural chunking: docs/linked.pdf";
         lit "Error: The file was not found at path docs/linked.pdf"], [])
  /\ ~ (exists msg,
          fst (process_pdf_raising fragile disk (lit "docs/linked.pdf"))
          = [ChunkerProps.started_line (lit "docs/linked.pdf"); unexpected_line msg]).
Proof.
  split; [reflexivity | split; [reflexivity | split; [reflexivity|]]].
  intros [msg H]. vm_compute in H. discriminate.
Qed.

(** The two chunks that the run over the policy holds when the splitter
    raises on the section of the claims. *)
Definition chunks_before_claims : list Document :=
  [chunk "Policy booklet" 1 0 "Introduction";
   chunk "Members aged 18 or more." 3 1 "ELIGIBILITY REQUIREMENTS"].

Lemma process_pdf_fails_closed_witness :
  ChunkerProps.raises fragile (basename policy_path) (disk policy_path)
    (OtherException (lit "maximum recursion depth exceeded")) chunks_before_claims
  /\ process_pdf_raising fragile disk policy_path
     = ([ChunkerProps.started_line policy_path;
         ChunkerProps.handler_line policy_path
           (OtherException (lit "maximum recursion depth exceeded"))], [])
  /\ (ChunkerProps.handler_line policy_path
        (OtherException (lit "maximum recursion depth exceeded"))
      = not_found_line policy_path
      <-> OtherException (lit "maximum recursion depth exceeded") = FileNotFoundError)
  /\ (forall msg,
        ChunkerProps.handler_line policy_path
          (OtherException (lit "maximum recursion depth exceeded"))
        = unexpected_line msg
        <-> OtherException (lit "maximum recursion depth exceeded") = OtherException msg)
  /\ (disk policy_path = Missing
      -> OtherException (lit "maximum recursion depth exceeded") = FileNotFoundError).
Proof.
  assert (H : ChunkerProps.raises fragile (basename policy_path) (disk policy_path)
                (OtherException (lit "maximum recursion depth exceeded"))
                chunks_before_claims).
  { change (disk policy_path) with (Opened (Reader policy)).
    apply (@ChunkerProps.raises_split fragile (basename policy_path) policy
             [{| text := lit "Policy booklet" ++ [nl]; page_no := 1 |};
              {| text := lit "ELIGIBILITY REQUIREMENTS" ++ nl :: lit "Members aged 18 or more.";
                 page_no := 3 |};
              {| text := lit "CLAIMS" ++ nl :: lit "Send the form."; page_no := 4 |}]
             (lit "Policy booklet" ++ [nl; nl] ++ lit "ELIGIBILITY REQUIREMENTS"
              ++ nl :: lit "Members aged 18 or more." ++ nl :: lit "CLAIMS"
              ++ nl :: lit "Send the form." ++ [nl])
             [(lit "Introduction", lit "Policy booklet" ++ [nl; nl]);
              (lit "ELIGIBILITY REQUIREMENTS", lit "Members aged 18 or more." ++ [nl])]
             (lit "CLAIMS") (lit "Send the form." ++ [nl]) []
             (OtherException (lit "maximum recursion depth exceeded"))
             2 chunks_before_claims).
    - reflexivity.
    - reflexivity.
    - reflexivity.
    - discriminate.
    - reflexivity. }
  split; [exact H|].
  exact (@ChunkerProps.process_pdf_fails_closed fragile disk policy_path _ _ H).
Defined.

Lemma process_pdf_no_text_witness :
  process_pdf one_chunk disk (lit "docs/blank.pdf")
  = ([ChunkerProps.started_line (lit "docs/blank.pdf");
      lit "Document processed. Generated 0 chunks from 1 sections."], []).
Proof.
  apply (@ChunkerProps.process_pdf_no_text one_chunk disk (lit "docs/blank.pdf")
           [Extracted []; Extracted []]).
  - reflexivity.
  - repeat constructor.
Defined.

End Examples.

(** * Further properties of the chunker *)

Module StripFacts.
Import PyStr.

(** [lstrip] removes a run of whitespace and stops at the first character
    that is not whitespace. *)
Lemma lstrip_split (s : str) :
  exists sp, s = sp ++ lstrip s
             /\ Forall (fun c => is_space c = true) sp
             /\ (lstrip s = [] \/ exists c r, lstrip s = c :: r /\ is_space c = false).
Proof.
  induction s as [|c s (sp & E & F & H)]; simpl.
  - exists []. repeat split; [constructor | now left].
  - destruct (is_space c) eqn:C.
    + exists (c :: sp). simpl. split; [now f_equal | split; [now constructor | exact H]].
    + exists []. split; [reflexivity | split; [constructor | right; now exists c, s]].
Qed.

Lemma rstrip_split (s : str) :
  exists sp, s = rstrip s ++ sp /\ Forall (fun c => is_space c = true) sp.
Proof.
  unfold rstrip. destruct (lstrip_split (rev s)) as (sp & E & F & _).
  exists (rev sp). split.
  - rewrite <- rev_app_distr, <- E. now rewrite rev_involutive.
  - apply Forall_rev. exact F.
Qed.

(** A text that begins with a character that is not whitespace keeps that
    character at its head when it is stripped, and only characters of the
    text remain. *)
Lemma strip_head (c : ascii) (r : str) :
  is_space c = false ->
  exists r' sp, strip (c :: r) = c :: r' /\ r = r' ++ sp
                /\ Forall (fun x => is_space x = true) sp.
Proof.
  intros C. unfold strip. simpl. rewrite C.
  destruct (rstrip_split (c :: r)) as (sp & E & F).
  destruct (rstrip (c :: r)) as [|c' r'] eqn:R.
  - simpl in E. subst sp. inversion F; congruence.
  - simpl in E. injection E as <- E. now exists r', sp.
Qed.

(** What [strip] returns has no whitespace at either end. *)
Lemma strip_trimmed (s : str) :
  strip s = [] \/
  exists c r, strip s = c :: r /\ is_space c = false
              /\ is_space (last (c :: r) c) = false.
Proof.
  unfold strip. destruct (lstrip_split s) as (sp & _ & _ & [E | (c & r & E & C)]).
  - left. rewrite E. reflexivity.
  - rewrite E. destruct (@strip_head c r C) as (r' & sp' & S & Er & F).
    unfold strip in S. simpl in S. rewrite C in S. rewrite S.
    right. exists c, r'. split; [reflexivity | split; [exact C|]].
    unfold rstrip in S.
    destruct (lstrip_split (rev (c :: r))) as (sp2 & _ & _ & [E2 | (c2 & r2 & E2 & C2)]).
    + rewrite E2 in S. discriminate.
    + rewrite E2 in S. rewrite <- S. cbn [rev]. now rewrite last_last.
Qed.

End StripFacts.

Module ListFacts.

(** In a sorted list every element of a leading part is related to every
    element behind it. *)
Lemma sorted_app_cross (A : Type) (R : A -> A -> Prop) (l1 l2 : list A) :
  StronglySorted R (l1 ++ l2) ->
  forall x y, In x l1 -> In y l2 -> R x y.
Proof.
  induction l1 as [|a l1 IH]; intros H x y Hx Hy; [destruct Hx|].
  simpl in H. apply StronglySorted_inv in H. destruct H as [Hs Hf].
  destruct Hx as [<- | Hx].
  - rewrite Forall_forall in Hf. apply Hf. apply in_or_app. now right.
  - now apply IH.
Qed.

Lemma sorted_app_l (A : Type) (R : A -> A -> Prop) (l1 l2 : list A) :
  StronglySorted R (l1 ++ l2) -> StronglySorted R l1.
Proof.
  induction l1 as [|a l1 IH]; intros H; [constructor|].
  simpl in H. apply StronglySorted_inv in H. destruct H as [Hs Hf].
  constructor; [now apply IH|]. now apply Forall_app in Hf.
Qed.

Lemma map_fst_combine (A B : Type) (l : list A) :
  forall l' : list B, length l <= length l' -> map fst (combine l l') = l.
Proof.
  induction l as [|a l IH]; intros [|b l'] H; simpl in *; try reflexivity; try lia.
  f_equal. apply IH. lia.
Qed.

End ListFacts.

Module ChunkerMore.
Import PyStr PyStrFacts StripFacts ListFacts Re ReFacts DocumentProcessor ChunkerProps HeaderProps.

(** *** The page mapping and the full text *)

(** Every page with text enters the mapping under its 1-based number, and
    the full text grows by the texts of the new entries, each with a newline
    behind it. *)
Lemma extract_pages_complete (pages : list page_src) :
  forall n pc0 ft0 pc ft,
    extract_pages n pages pc0 ft0 = inr (pc, ft) ->
    exists new,
      pc = pc0 ++ new
      /\ ft = ft0 ++ concat (map (fun q => text q ++ [nl]) new)
      /\ forall i t, nth_error pages i = Some (Extracted t) -> t <> [] ->
                     In {| text := t; page_no := n + i + 1 |} new.
Proof.
  induction pages as [|p pages IH]; intros n pc0 ft0 pc ft H; simpl in H.
  - injection H as <- <-. exists []. simpl. rewrite !app_nil_r.
    split; [reflexivity | split; [reflexivity|]]. intros [|i] t Hn; discriminate.
  - destruct p as [[|c t]|msg]; [| |discriminate].
    + destruct (IH _ _ _ _ _ H) as (new & -> & -> & Hin).
      exists new. split; [reflexivity | split; [reflexivity|]].
      intros [|i] t' Hn Ht; simpl in Hn.
      * injection Hn as <-. congruence.
      * replace (n + S i + 1) with (S n + i + 1) by lia. now apply Hin.
    + destruct (IH _ _ _ _ _ H) as (new & -> & -> & Hin).
      exists ({| text := c :: t; page_no := n + 1 |} :: new).
      split; [now rewrite <- app_assoc | split].
      * cbn [map concat text]. now rewrite <- !app_assoc.
      * intros [|i] t' Hn Ht; simpl in Hn.
        -- injection Hn as <-. left. f_equal. lia.
        -- right. replace (n + S i + 1) with (S n + i + 1) by lia. now apply Hin.
Qed.

(** X1.  The page mapping is exact.  After a successful extraction the mapping
    holds one entry for each page that has text, and no other, under the
    1-based number of the page and in increasing order of page number, and
    the full text is the texts of these pages, each followed by a newline. *)
Theorem page_mapping_exact (pages : list page_src) (pc : list page_info) (ft : str) :
  extract_pages 0 pages [] [] = inr (pc, ft) ->
  (forall n t, In {| text := t; page_no := n |} pc
               <-> 1 <= n /\ nth_error pages (n - 1) = Some (Extracted t) /\ t <> [])
  /\ StronglySorted lt (map page_no pc)
  /\ ft = concat (map (fun q => text q ++ [nl]) pc).
Proof.
  intros H.
  destruct (extract_pages_mapping _ _ _ _ H) as (new & E & Hs & Hf).
  destruct (extract_pages_complete _ _ _ _ H) as (new' & E' & Hft & Hin).
  simpl in E, E'. subst pc. subst new'.
  split; [|split; [exact Hs | exact Hft]].
  intros n t. split.
  - intros HIn. rewrite Forall_forall in Hf. apply Hf in HIn. simpl in HIn.
    destruct HIn as (H1 & H2 & H3). repeat split; [lia | exact H2 | exact H3].
  - intros (H1 & H2 & H3). specialize (Hin _ _ H2 H3).
    replace (0 + (n - 1) + 1) with n in Hin by lia. exact Hin.
Qed.

(** Extraction succeeds exactly when no page raises. *)
Lemma extract_pages_succeeds (pages : list page_src) :
  forall n pc0 ft0,
    (exists r, extract_pages n pages pc0 ft0 = inr r)
    <-> Forall (fun p => exists t, p = Extracted t) pages.
Proof.
  induction pages as [|p pages IH]; intros n pc0 ft0; simpl.
  - split; [constructor | intros _; now eexists].
  - destruct p as [[|c t]|msg].
    + rewrite IH. split; [intros F; constructor; [now eexists | exact F] | now inversion 1].
    + rewrite IH. split; [intros F; constructor; [now eexists | exact F] | now inversion 1].
    + split; [intros [r Hr]; discriminate|].
      inversion 1 as [|? ? [t Ht] _]. discriminate.
Qed.

(** *** Sections and their texts *)

(** The text that a content list came from: the first content, then each
    title, a newline and its content. *)
Definition rebuild (content_list : list (str * str)) : str :=
  match content_list with
  | [] => []
  | (_, first) :: pairs => first ++ concat (map (fun tb => fst tb ++ nl :: snd tb) pairs)
  end.

Lemma sections_from_join (done s first : str) (pairs : list (str * str)) :
  sections_from done s first pairs ->
  s = first ++ concat (map (fun tb => fst tb ++ nl :: snd tb) pairs).
Proof.
  induction 1 as [done s _ | done pre h rest body tail _ _ IH].
  - simpl. now rewrite app_nil_r.
  - cbn [map concat fst snd]. rewrite <- !app_assoc. simpl. now rewrite <- IH.
Qed.

Lemma sections_from_titles (done s first : str) (pairs : list (str * str)) :
  sections_from done s first pairs ->
  Forall (fun tb => header_shape (fst tb)) pairs.
Proof.
  induction 1 as [done s _ | done pre h rest body tail (_ & Hh & _) _ IH].
  - constructor.
  - constructor; [exact Hh | exact IH].
Qed.

(** The content list is "General" with the whole text, or "Introduction"
    and the pairs of the one pass. *)
Lemma content_list_of_cases (full_text : str) :
  exists intro pairs,
    sections_from [] full_text intro pairs
    /\ content_list_of full_text =
       match pairs with
       | [] => [(lit "General", full_text)]
       | _ :: _ => (lit "Introduction", intro) :: pairs
       end.
Proof.
  destruct (@split_from_scan (S (length full_text)) [] full_text (Nat.lt_succ_diag_r _))
    as (first & pairs & Hs & E).
  exists first, pairs. split; [exact Hs|].
  unfold content_list_of, split. rewrite <- prev_of_nil, E.
  fold (pairs_of (first :: flat pairs)). rewrite pairs_of_flat.
  destruct pairs as [|[t b] tail]; [|reflexivity].
  inversion Hs; subst. reflexivity.
Qed.

(** X2.  Sectioning loses no text.  Putting the contents of the content list
    back together, with each title and a newline before its content, gives
    the full text again. *)
Theorem content_list_of_rebuild (full_text : str) :
  rebuild (content_list_of full_text) = full_text.
Proof.
  destruct (content_list_of_cases full_text) as (intro & pairs & Hs & ->).
  destruct pairs as [|tb tail].
  - simpl. apply app_nil_r.
  - unfold rebuild. symmetry. exact (sections_from_join Hs).
Qed.

Lemma content_list_titles (full_text t b : str) :
  In (t, b) (content_list_of full_text) ->
  t = lit "Introduction" \/ t = lit "General" \/ header_shape t.
Proof.
  destruct (content_list_of_cases full_text) as (intro & pairs & Hs & ->).
  apply sections_from_titles in Hs. rewrite Forall_forall in Hs.
  destruct pairs as [|tb tail].
  - intros [[= <- _] | []]. right. now left.
  - intros [[= <- _] | HIn]; [now left|].
    right. right. exact (Hs _ HIn).
Qed.

Lemma upper_not_space (c : ascii) : upper c = true -> is_space c = false.
Proof.
  unfold upper, is_space, between. intros H.
  apply andb_true_iff in H. destruct H as [H1 H2].
  apply Nat.leb_le in H1, H2.
  repeat (apply orb_false_iff; split);
    try (apply andb_false_iff; (left; apply Nat.leb_gt; lia) || (right; apply Nat.leb_gt; lia));
    apply Nat.eqb_neq; lia.
Qed.

(** The name that a header gives to its section. *)
Definition header_name (name : str) : Prop :=
  exists c r, name = c :: r /\ upper c = true
              /\ Forall (fun x => title_char x = true) r
              /\ is_space (last name c) = false.

Lemma strip_header (t : str) : header_shape t -> header_name (strip t).
Proof.
  intros (c & rest & -> & U & F & _).
  destruct (@strip_head c rest (upper_not_space _ U)) as (r' & sp & E & Er & _).
  exists c, r'. split; [exact E | split; [exact U | split]].
  - subst rest. now apply Forall_app in F.
  - destruct (strip_trimmed (c :: rest)) as [E0 | (c2 & r2 & E2 & _ & L)]; [congruence|].
    rewrite E in E2. injection E2 as <- <-. rewrite E. exact L.
Qed.

Section WithSplitter.

Variable splitter : nat -> nat -> list str -> str -> list str.

(** The chunks of one (title, content) pair: none when the content is blank,
    else what the splitter makes of the content. *)
Definition section_chunks (tb : str * str) : list str :=
  match strip (snd tb) with
  | [] => []
  | _ :: _ => split_text splitter (snd tb)
  end.

Lemma chunk_loop_texts file_name title pc chunks :
  forall c acc, exists new,
    chunk_loop file_name title pc chunks (c, acc) = (c + length new, acc ++ new)
    /\ map page_content new = chunks
    /\ Forall (fun d => source (metadata d) = file_name
                        /\ section (metadata d) = title) new.
Proof.
  induction chunks as [|t chunks IH]; intros c acc.
  - exists []. simpl. rewrite Nat.add_0_r, app_nil_r. repeat split. constructor.
  - cbn [chunk_loop]. cbv zeta.
    set (d := {| page_content := t; metadata := _ |}).
    destruct (IH (S c) (acc ++ [d])) as (new & E & Ht & F).
    exists (d :: new). rewrite E. split; [|split].
    + simpl. rewrite <- app_assoc. f_equal. lia.
    + simpl. now f_equal.
    + constructor; [now split | exact F].
Qed.

(** A chunk made from a pair of the content list. *)
Definition made_from (file_name : str) (content_list : list (str * str)) (d : Document) : Prop :=
  source (metadata d) = file_name
  /\ exists title body,
       In (title, body) content_list
       /\ section (metadata d) = strip title
       /\ strip body <> []
       /\ In (page_content d) (split_text splitter body).

Lemma made_from_more file_name tb content_list d :
  made_from file_name content_list d -> made_from file_name (tb :: content_list) d.
Proof.
  intros (Hs & t & b & HIn & H). split; [exact Hs|].
  exists t, b. split; [now right | exact H].
Qed.

Lemma section_loop_texts file_name pc content_list :
  forall c acc, exists new,
    section_loop splitter file_name pc content_list (c, acc) = (c + length new, acc ++ new)
    /\ map page_content new = concat (map section_chunks content_list)
    /\ Forall (made_from file_name content_list) new.
Proof.
  induction content_list as [|[title body] rest IH]; intros c acc.
  - exists []. simpl. rewrite Nat.add_0_r, app_nil_r. repeat split. constructor.
  - cbn [section_loop map concat]. cbv zeta. unfold section_chunks at 1. cbn [snd].
    destruct (strip body) as [|x xs] eqn:B.
    + destruct (IH c acc) as (new & E & Ht & F). exists new.
      split; [exact E | split; [exact Ht|]].
      eapply Forall_impl; [|exact F]. intros d. apply made_from_more.
    + destruct (chunk_loop_texts file_name (strip title) pc (split_text splitter body) c acc)
        as (new1 & E1 & T1 & F1).
      rewrite E1.
      destruct (IH (c + length new1) (acc ++ new1)) as (new2 & E2 & T2 & F2).
      exists (new1 ++ new2). split; [|split].
      * rewrite E2, length_app, <- app_assoc. f_equal. lia.
      * rewrite map_app. now rewrite T1, T2.
      * apply Forall_app. split.
        -- rewrite Forall_forall in F1. apply Forall_forall. intros d Hd.
           destruct (F1 d Hd) as [Hs Hsec]. split; [exact Hs|].
           exists title, body. split; [now left | split; [exact Hsec | split]].
           ++ rewrite B. discriminate.
           ++ rewrite <- T1. now apply in_map.
        -- eapply Forall_impl; [|exact F2]. intros d. apply made_from_more.
Qed.

(** A run whose extraction succeeds returns what the section loop built. *)
Lemma process_pdf_ok (fs : filesystem) (file_path : str) pages pc ft :
  fs file_path = Opened (Reader pages) ->
  extract_pages 0 pages [] [] = inr (pc, ft) ->
  snd (process_pdf splitter fs file_path)
  = snd (section_loop splitter (basename file_path) pc (content_list_of ft) (0, [])).
Proof.
  intros Hfs Hx. unfold process_pdf, process_body. rewrite Hfs, Hx.
  destruct (section_loop splitter (basename file_path) pc (content_list_of ft) (0, []))
    as [c ds]. reflexivity.
Qed.

(** X3.  The texts of the chunks.  The chunks of a run carry, in order, the
    texts that the splitter returns for the sections whose content is not
    blank, section after section; a blank section gives no chunk. *)
Theorem process_pdf_chunk_texts (fs : filesystem) (file_path : str) pages pc ft :
  fs file_path = Opened (Reader pages) ->
  extract_pages 0 pages [] [] = inr (pc, ft) ->
  map page_content (snd (process_pdf splitter fs file_path))
  = concat (map section_chunks (content_list_of ft)).
Proof.
  intros Hfs Hx. rewrite (process_pdf_ok _ _ Hfs Hx).
  destruct (section_loop_texts (basename file_path) pc (content_list_of ft) 0 [])
    as (new & E & T & _).
  rewrite E. exact T.
Qed.

(** X4.  Where a chunk comes from.  Each chunk of a run names the file by its
    base name, and its text is one of the splitter's chunks of a section of
    the document whose content is not blank; its section is the stripped
    title of that section, which is "Introduction", "General", or a header
    without its trailing whitespace: an uppercase letter followed by header
    characters. *)
Theorem process_pdf_chunk_provenance (fs : filesystem) (file_path : str) (d : Document) :
  In d (snd (process_pdf splitter fs file_path)) ->
  source (metadata d) = basename file_path
  /\ (exists pages pc ft title body,
        fs file_path = Opened (Reader pages)
        /\ extract_pages 0 pages [] [] = inr (pc, ft)
        /\ In (title, body) (content_list_of ft)
        /\ section (metadata d) = strip title
        /\ strip body <> []
        /\ In (page_content d) (split_text splitter body))
  /\ (section (metadata d) = lit "Introduction"
      \/ section (metadata d) = lit "General"
      \/ header_name (section (metadata d))).
Proof.
  intros Hd.
  destruct (process_pdf_chunks splitter fs file_path) as [E | (pages & pc & ft & Hfs & Hx & _)].
  - rewrite E in Hd. destruct Hd.
  - rewrite (process_pdf_ok _ _ Hfs Hx) in Hd.
    destruct (section_loop_texts (basename file_path) pc (content_list_of ft) 0 [])
      as (new & E & _ & F).
    rewrite E in Hd. cbn [snd app] in Hd.
    rewrite Forall_forall in F. destruct (F d Hd) as (Hs & t & b & HIn & Hsec & Hb & Hc).
    split; [exact Hs | split].
    + exists pages, pc, ft, t, b. repeat split; assumption.
    + rewrite Hsec. destruct (content_list_titles _ _ _ HIn) as [-> | [-> | Hh]].
      * now left.
      * right. now left.
      * right. right. now apply strip_header.
Qed.

(** X5.  The page that a chunk cites.  A page number in the metadata of a
    chunk is the 1-based number of a page of the document whose text
    contains the whole text of the chunk, and no earlier page with text
    does; with "N/A" no page with text contains the whole text of the
    chunk. *)
Theorem process_pdf_page_is_first_with_chunk
        (fs : filesystem) (file_path : str) (d : Document) :
  In d (snd (process_pdf splitter fs file_path)) ->
  exists pages,
    fs file_path = Opened (Reader pages)
    /\ match page (metadata d) with
       | PageNum n =>
           1 <= n
           /\ (exists txt, nth_error pages (n - 1) = Some (Extracted txt)
                           /\ occurs_in (page_content d) txt)
           /\ forall m txt,
                1 <= m -> m < n -> nth_error pages (m - 1) = Some (Extracted txt) ->
                txt <> [] -> ~ occurs_in (page_content d) txt
       | PageNA =>
           forall i txt,
             nth_error pages i = Some (Extracted txt) ->
             txt <> [] -> ~ occurs_in (page_content d) txt
       end.
Proof.
  intros Hd.
  destruct (process_pdf_chunks splitter fs file_path)
    as [E | (pages & pc & ft & Hfs & Hx & _ & Hp)].
  { rewrite E in Hd. destruct Hd. }
  exists pages. split; [exact Hfs|].
  rewrite Forall_forall in Hp. rewrite (Hp d Hd).
  pose proof (find_page_first pc (page_content d)) as FP.
  rewrite needle_of_whole in FP.
  destruct (extract_pages_mapping _ _ _ _ Hx) as (new & E & Hs & Hf).
  destruct (extract_pages_complete _ _ _ _ Hx) as (new' & E' & _ & Hin).
  simpl in E, E'. subst pc. subst new'. rewrite Forall_forall in Hf.
  assert (Hall : forall i txt, nth_error pages i = Some (Extracted txt) -> txt <> [] ->
                               In {| text := txt; page_no := i + 1 |} new)
    by (intros i txt H1 H2; exact (Hin i txt H1 H2)).
  inversion FP as [before p after Hb Hq Hpc Hr | pc' Hnone Hr].
  - assert (Hpin : In p new) by (rewrite <- Hpc; apply in_or_app; right; now left).
    destruct (Hf p Hpin) as (H1 & H2 & _).
    split; [lia | split].
    + exists (text p). split; [exact H2 | exact Hq].
    + intros m txt Hm1 Hmn Hnth Htxt.
      specialize (Hall (m - 1) txt Hnth Htxt).
      replace (m - 1 + 1) with m in Hall by lia.
      rewrite <- Hpc in Hall, Hs. apply in_app_or in Hall.
      destruct Hall as [HIn | [Heq | HIn]].
      * rewrite Forall_forall in Hb. exact (Hb _ HIn).
      * subst p. simpl in Hmn. lia.
      * exfalso. rewrite map_app in Hs. simpl in Hs.
        assert (Hlt : page_no p < m).
        { change m with (page_no {| text := txt; page_no := m |}).
          replace (map page_no before ++ page_no p :: map page_no after)
            with ((map page_no before ++ [page_no p]) ++ map page_no after) in Hs
            by (now rewrite <- app_assoc).
          eapply sorted_app_cross; [exact Hs | |].
          - apply in_or_app. right. now left.
          - now apply in_map. }
        lia.
  - intros i txt Hnth Htxt. rewrite Forall_forall in Hnone.
    exact (Hnone _ (Hall i txt Hnth Htxt)).
Qed.

End WithSplitter.

End ChunkerMore.

(** * Further properties of the re-ranker and of the pipeline *)

Module RerankerMore.
Import PyStr PyStrFacts ListFacts DocumentProcessor Retrieval RerankerProps.

Section Ties.

Variables (A K : Type) (key : A -> K) (lt : K -> K -> bool).
Hypothesis ge_trans : forall a b c, lt a b = false -> lt b c = false -> lt a c = false.

(** [x] has a key that [<] does not tell from [k]. *)
Definition tied (k : K) (x : A) : bool := negb (lt k (key x)) && negb (lt (key x) k).

Lemma insert_desc_filter_other (p : A -> bool) (x : A) (l : list A) :
  p x = false -> filter p (insert_desc key lt x l) = filter p l.
Proof.
  intros Hx. induction l as [|y l IH]; simpl.
  - now rewrite Hx.
  - destruct (lt (key x) (key y)); simpl.
    + now rewrite IH.
    + now rewrite Hx.
Qed.

Lemma insert_desc_filter_tied (k : K) (x : A) (l : list A) :
  tied k x = true ->
  filter (tied k) (insert_desc key lt x l) = x :: filter (tied k) l.
Proof.
  intros Hx. induction l as [|y l IH]; simpl.
  - now rewrite Hx.
  - destruct (lt (key x) (key y)) eqn:E; simpl.
    + destruct (tied k y) eqn:Hy; [|exact IH].
      exfalso. unfold tied in Hx, Hy.
      apply andb_true_iff in Hx, Hy. destruct Hx as [_ Hx], Hy as [Hy _].
      apply negb_true_iff in Hx, Hy.
      rewrite (@ge_trans _ _ _ Hx Hy) in E. discriminate.
    + now rewrite Hx.
Qed.

(** The sort is stable: the elements with tied keys keep their order. *)
Lemma sorted_desc_stable (k : K) (l : list A) :
  filter (tied k) (sorted_desc key lt l) = filter (tied k) l.
Proof.
  induction l as [|x l IH]; simpl; [reflexivity|].
  destruct (tied k x) eqn:Hx.
  - rewrite insert_desc_filter_tied by assumption. now rewrite IH.
  - rewrite insert_desc_filter_other by assumption. exact IH.
Qed.

End Ties.

Section Rerank.

Variable score : Type.
Variable lt : score -> score -> bool.

(** The candidates with the scores that the model gives them. *)
Definition scored (model : CrossEncoder score) (query : str) (documents : list Document)
  : list (Document * score) :=
  combine documents (model (pairs_for query documents)).

(** The result of a re-ranking with a loaded model, by the sorted list. *)
Lemma compress_documents_result
      (self : LocalCrossEncoderReranker score) (model : CrossEncoder score)
      (documents : list Document) (query : str) :
  cross_encoder self = Some model ->
  (0 <= top_n self)%Z ->
  documents <> [] ->
  snd (compress_documents lt self documents query)
  = inr (map fst (firstn (Z.to_nat (top_n self))
                         (sorted_desc snd lt (scored model query documents)))).
Proof.
  intros Hm Hn Hne. unfold compress_documents, scored, pairs_for.
  destruct documents as [|d ds]; [congruence|].
  rewrite Hm. cbn [snd]. rewrite map_map, slice_to_nonneg by assumption. reflexivity.
Qed.

(** X6.  The re-ranker selects.  With a loaded model that returns one score for
    each pair, the result holds [min(top_n, n)] of the [n] candidates, and
    together with the candidates left out it is a rearrangement of the
    candidates: no document is made up and none is returned more often than
    it was given. *)
Theorem compress_documents_selects
        (self : LocalCrossEncoderReranker score) (model : CrossEncoder score)
        (documents : list Document) (query : str) :
  cross_encoder self = Some model ->
  (0 <= top_n self)%Z ->
  documents <> [] ->
  length (model (pairs_for query documents)) = length documents ->
  exists kept dropped,
    snd (compress_documents lt self documents query) = inr kept
    /\ Permutation (kept ++ dropped) documents
    /\ length kept = Nat.min (Z.to_nat (top_n self)) (length documents).
Proof.
  intros Hm Hn Hne Hlen.
  set (n := Z.to_nat (top_n self)).
  set (sorted := sorted_desc snd lt (scored model query documents)).
  exists (map fst (firstn n sorted)), (map fst (skipn n sorted)).
  assert (Hp : Permutation sorted (scored model query documents))
    by (apply Permutation_sym, sorted_desc_perm).
  split; [now apply compress_documents_result | split].
  - rewrite <- map_app, firstn_skipn.
    apply Permutation_trans with (map fst (scored model query documents));
      [now apply Permutation_map|].
    unfold scored. rewrite map_fst_combine by lia. apply Permutation_refl.
  - rewrite length_map, length_firstn, (Permutation_length Hp).
    unfold scored. rewrite length_combine, Hlen, Nat.min_id. reflexivity.
Qed.

(** [<] on the scores is a strict weak order (no score is a NaN). *)
Hypothesis lt_asym : forall a b, lt a b = true -> lt b a = false.
Hypothesis ge_trans : forall a b c, lt a b = false -> lt b c = false -> lt a c = false.

(** X7.  The re-ranker keeps the best.  No candidate that is left out has a
    score above the score of a candidate that is returned. *)
Theorem compress_documents_keeps_best
        (self : LocalCrossEncoderReranker score) (model : CrossEncoder score)
        (documents : list Document) (query : str) :
  cross_encoder self = Some model ->
  (0 <= top_n self)%Z ->
  documents <> [] ->
  exists kept dropped : list (Document * score),
    snd (compress_documents lt self documents query) = inr (map fst kept)
    /\ Permutation (kept ++ dropped) (scored model query documents)
    /\ forall k d, In k kept -> In d dropped -> lt (snd k) (snd d) = false.
Proof.
  intros Hm Hn Hne.
  set (n := Z.to_nat (top_n self)).
  set (sorted := sorted_desc snd lt (scored model query documents)).
  exists (firstn n sorted), (skipn n sorted).
  split; [now apply compress_documents_result | split].
  - rewrite firstn_skipn. apply Permutation_sym, sorted_desc_perm.
  - intros k d Hk Hd.
    pose proof (sorted_desc_sorted snd lt lt_asym ge_trans (scored model query documents)) as Hs.
    fold sorted in Hs. rewrite <- (firstn_skipn n sorted) in Hs.
    exact (@sorted_app_cross _ _ _ _ Hs _ _ Hk Hd).
Qed.

(** X8.  Ties keep the order of the candidates.  The candidates are ranked in
    an order in which those whose scores [<] does not tell apart stand as
    they stood among the candidates, and the result is the first [top_n] of
    that order. *)
Theorem compress_documents_stable
        (self : LocalCrossEncoderReranker score) (model : CrossEncoder score)
        (documents : list Document) (query : str) :
  cross_encoder self = Some model ->
  (0 <= top_n self)%Z ->
  documents <> [] ->
  exists ranked : list (Document * score),
    snd (compress_documents lt self documents query)
    = inr (map fst (firstn (Z.to_nat (top_n self)) ranked))
    /\ Permutation ranked (scored model query documents)
    /\ forall s, filter (tied snd lt s) ranked
                 = filter (tied snd lt s) (scored model query documents).
Proof.
  intros Hm Hn Hne.
  exists (sorted_desc snd lt (scored model query documents)).
  split; [now apply compress_documents_result | split].
  - apply Permutation_sym, sorted_desc_perm.
  - intros s. now apply sorted_desc_stable.
Qed.

End Rerank.

End RerankerMore.

Module PipelineMore.
Import PyStr DocumentProcessor Retrieval.

(** The keys of [OLLAMA_MODELS]. *)
Definition known_model (model_key : str) : Prop :=
  model_key = lit "Mistral" \/ model_key = lit "Llama2".

Definition not_found_error (model_key : str) : exn :=
  ValueError (lit "Model '" ++ model_key ++ lit "' not found in configuration.").

Lemma dict_get_models (model_key : str) :
  (model_key = lit "Mistral" /\ dict_get model_key OLLAMA_MODELS = Some (lit "mistral:7b"))
  \/ (model_key = lit "Llama2" /\ dict_get model_key OLLAMA_MODELS = Some (lit "llama2:7b"))
  \/ (~ known_model model_key /\ dict_get model_key OLLAMA_MODELS = None).
Proof.
  unfold OLLAMA_MODELS, dict_get, known_model.
  destruct (list_eq_dec ascii_dec model_key (lit "Mistral")) as [E1|N1].
  - left. now split.
  - right. destruct (list_eq_dec ascii_dec model_key (lit "Llama2")) as [E2|N2].
    + left. now split.
    + right. split; [tauto | reflexivity].
Qed.

(** X9.  The model keys.  The configuration of a model exists exactly for the
    keys "Mistral" and "Llama2", spelled so, and carries the model name of
    the key with the temperature 0.1 and top_p 0.9; every other key raises
    a [ValueError] that names the key. *)
Theorem get_common_config_keys (model_key : str) :
  ((exists cfg, _get_common_config model_key = inr cfg) <-> known_model model_key)
  /\ (forall cfg, _get_common_config model_key = inr cfg ->
                  temperature cfg = LLM_TEMPERATURE /\ top_p cfg = LLM_TOP_P
                  /\ dict_get model_key OLLAMA_MODELS = Some (model cfg))
  /\ (~ known_model model_key ->
      _get_common_config model_key = inl (not_found_error model_key)).
Proof.
  unfold _get_common_config.
  destruct (dict_get_models model_key) as [[E H] | [[E H] | [N H]]]; rewrite H.
  - split; [|split].
    + split; [intros _; now left | intros _; now eexists].
    + intros cfg [= <-]. now repeat split.
    + intros N. exfalso. apply N. now left.
  - split; [|split].
    + split; [intros _; now right | intros _; now eexists].
    + intros cfg [= <-]. now repeat split.
    + intros N. exfalso. apply N. now right.
  - split; [|split].
    + split; [intros [cfg Hc]; discriminate | intros K; contradiction].
    + intros cfg Hc. discriminate.
    + reflexivity.
Qed.

Lemma config_known (model_key : str) :
  known_model model_key -> exists cfg, _get_common_config model_key = inr cfg.
Proof.
  unfold _get_common_config. intros K.
  destruct (dict_get_models model_key) as [[E H] | [[E H] | [N H]]]; rewrite H;
    [now eexists | now eexists | contradiction].
Qed.

Lemma config_unknown (model_key : str) :
  ~ known_model model_key -> _get_common_config model_key = inl (not_found_error model_key).
Proof.
  unfold _get_common_config. intros K.
  destruct (dict_get_models model_key) as [[E H] | [[E H] | [N H]]]; rewrite H;
    [exfalso; apply K; now left | exfalso; apply K; now right | reflexivity].
Qed.

Lemma config_exists_known (model_key : str) :
  (exists cfg, _get_common_config model_key = inr cfg) -> known_model model_key.
Proof.
  unfold _get_common_config. intros [cfg Hc].
  destruct (dict_get_models model_key) as [[E H] | [[E H] | [N H]]]; rewrite H in Hc;
    [now left | now right | discriminate].
Qed.

Section Pipeline.

Variable score : Type.
Variable lt : score -> score -> bool.
Variable load : str -> str + CrossEncoder score.

(** The hybrid retriever over the indexed chunks: BM25 and the vector search,
    10 results each, with equal weights. *)
Definition hybrid (all_docs : list Document) : Retriever score :=
  EnsembleRetriever
    [BM25Retriever score all_docs 10;
     ChromaRetriever score CHROMA_COLLECTION_NAME EMBEDDING_MODEL 10]
    [QArith_base.Qmake 1 2; QArith_base.Qmake 1 2].

(** The retriever that is built over a non-empty index for a configuration
    [cfg]. *)
Definition advanced (all_docs : list Document) (cfg : ModelConfig) : Retriever score :=
  ContextualCompressionRetriever (snd (init load 4))
    (MultiQueryRetriever (hybrid all_docs) cfg).

Lemma get_advanced_retriever_nonempty (m : VectorStoreManager) (model_key : str) :
  collection m <> [] ->
  snd (get_advanced_retriever load m model_key)
  = match _get_common_config model_key with
    | inr cfg => inr (Some (advanced (collection m) cfg))
    | inl e => inl e
    end.
Proof.
  intros Hne. unfold get_advanced_retriever, get_all_documents, get_chat_model.
  destruct (collection m) as [|d ds] eqn:C; [congruence|].
  destruct (_get_common_config model_key) as [e|cfg]; [reflexivity|].
  unfold advanced, hybrid. destruct (init load 4) as [p4 rr]. reflexivity.
Qed.

(** X10.  When a retriever is built.  [get_advanced_retriever] returns a
    retriever exactly when the index holds a chunk and the model key is
    known; the retriever then re-ranks, with [top_n] 4, the expanded queries
    of the equal-weight ensemble of BM25 over all indexed chunks and the
    vector search, 10 results each.  Over a non-empty index an unknown key
    raises the [ValueError] of the key. *)
Theorem get_advanced_retriever_outcomes (m : VectorStoreManager) (model_key : str) :
  ((exists r, snd (get_advanced_retriever load m model_key) = inr (Some r))
   <-> collection m <> [] /\ known_model model_key)
  /\ (forall r, snd (get_advanced_retriever load m model_key) = inr (Some r) ->
        exists rr cfg,
          r = ContextualCompressionRetriever rr
                (MultiQueryRetriever (hybrid (collection m)) cfg)
          /\ top_n rr = 4%Z
          /\ _get_common_config model_key = inr cfg)
  /\ (collection m <> [] -> ~ known_model model_key ->
      snd (get_advanced_retriever load m model_key) = inl (not_found_error model_key)).
Proof.
  destruct (collection m) as [|d ds] eqn:C.
  - assert (E : snd (get_advanced_retriever load m model_key) = inr None)
      by (unfold get_advanced_retriever, get_all_documents; now rewrite C).
    rewrite E. split; [|split].
    + split; [intros [r Hr]; discriminate | intros [H _]; congruence].
    + intros r Hr. discriminate.
    + congruence.
  - assert (Hne : collection m <> []) by (rewrite C; discriminate).
    rewrite (@get_advanced_retriever_nonempty m model_key Hne), C.
    split; [|split].
    + split.
      * intros [r Hr]. split; [discriminate|].
        apply config_exists_known.
        destruct (_get_common_config model_key); [discriminate | now eexists].
      * intros [_ K]. destruct (config_known K) as [cfg ->]. now eexists.
    + intros r Hr. destruct (_get_common_config model_key) as [e|cfg]; [discriminate|].
      injection Hr as <-. exists (snd (init load 4)), cfg.
      split; [reflexivity | split; [|reflexivity]].
      unfold init. now destruct (load default_model_name).
    + intros _ K. now rewrite (config_unknown K).
Qed.

Lemma get_advanced_retriever_empty (m : VectorStoreManager) (model_key : str) :
  collection m = [] -> snd (get_advanced_retriever load m model_key) = inr None.
Proof.
  intros C. unfold get_advanced_retriever, get_all_documents. now rewrite C.
Qed.

(** What [init] prints is printed by [get_advanced_retriever] when it builds
    a retriever. *)
Lemma get_advanced_retriever_prints_init (m : VectorStoreManager) (model_key : str) r e :
  snd (get_advanced_retriever load m model_key) = inr (Some r) ->
  In e (fst (init load 4)) ->
  In e (fst (get_advanced_retriever load m model_key)).
Proof.
  unfold get_advanced_retriever, get_all_documents, get_chat_model.
  destruct (collection m) as [|d ds]; [discriminate|].
  destruct (_get_common_config model_key) as [err|cfg]; [discriminate|].
  destruct (init load 4) as [p4 rr]. cbn [fst snd]. intros _ He.
  rewrite !in_app_iff. tauto.
Qed.

(** X11.  A model that does not load.  When the cross-encoder cannot be loaded,
    the retriever is built all the same: the failure is printed, and the
    re-ranker of the retriever raises [ModelUnavailable] for every non-empty
    candidate list, without a call of the model, and returns the empty list
    for the empty one. *)
Theorem failed_load_surfaces_at_rerank
        (m : VectorStoreManager) (model_key msg : str) (r : Retriever score) :
  load default_model_name = inl msg ->
  snd (get_advanced_retriever load m model_key) = inr (Some r) ->
  In (Printed (lit "Error initializing CrossEncoder: " ++ msg))
     (fst (get_advanced_retriever load m model_key))
  /\ exists rr base,
       r = ContextualCompressionRetriever rr base
       /\ (forall documents query,
             documents <> [] ->
             compress_documents lt rr documents query = ([], inl ModelUnavailable))
       /\ (forall query, compress_documents lt rr [] query = ([], inr [])).
Proof.
  intros Hl Hr. split.
  - apply (@get_advanced_retriever_prints_init m model_key r _ Hr).
    unfold init. rewrite Hl. right. now left.
  - destruct (collection m) as [|d ds] eqn:C.
    + rewrite (@get_advanced_retriever_empty m model_key C) in Hr. discriminate.
    + assert (Hne : collection m <> []) by (rewrite C; discriminate).
      rewrite (@get_advanced_retriever_nonempty m model_key Hne) in Hr.
      destruct (_get_common_config model_key) as [e|cfg]; [discriminate|].
      injection Hr as <-. unfold advanced.
      eexists _, _. split; [reflexivity | split].
      * intros documents query Hne'. unfold compress_documents, init. rewrite Hl.
        cbn [snd cross_encoder]. now destruct documents.
      * reflexivity.
Qed.

Lemma get_rag_chain_result (model_key : str) (m : VectorStoreManager) :
  snd (get_rag_chain load model_key m)
  = match snd (get_advanced_retriever load m model_key) with
    | inl e => inl e
    | inr None => inr None
    | inr (Some r) =>
        match _get_common_config model_key with
        | inl e => inl e
        | inr llm => inr (Some {| qa_llm := llm; qa_retriever := r |})
        end
    end.
Proof.
  unfold get_rag_chain, get_llm.
  destruct (get_advanced_retriever load m model_key) as [p1 [e|[r|]]]; cbn [snd];
    try reflexivity.
  now destruct (_get_common_config model_key).
Qed.

(** X12.  When a chain is built.  [get_rag_chain] returns a chain exactly when
    the index holds a chunk and the model key is known, and None exactly
    when the index is empty; the chain answers with the model of the key
    over the retriever that [get_advanced_retriever] returns for the same
    arguments. *)
Theorem get_rag_chain_outcomes (model_key : str) (m : VectorStoreManager) :
  ((exists c, snd (get_rag_chain load model_key m) = inr (Some c))
   <-> collection m <> [] /\ known_model model_key)
  /\ (snd (get_rag_chain load model_key m) = inr None <-> collection m = [])
  /\ (forall c, snd (get_rag_chain load model_key m) = inr (Some c) ->
        snd (get_advanced_retriever load m model_key) = inr (Some (qa_retriever c))
        /\ _get_common_config model_key = inr (qa_llm c)).
Proof.
  rewrite get_rag_chain_result.
  destruct (collection m) as [|d ds] eqn:C.
  - rewrite (@get_advanced_retriever_empty m model_key C). split; [|split].
    + split; [intros [c Hc]; discriminate | intros [H _]; congruence].
    + split; reflexivity.
    + intros c Hc. discriminate.
  - assert (Hne : collection m <> []) by (rewrite C; discriminate).
    rewrite (@get_advanced_retriever_nonempty m model_key Hne), C.
    destruct (_get_common_config model_key) as [e|cfg] eqn:G.
    + split; [|split].
      * split; [intros [c Hc]; discriminate|].
        intros [_ K]. destruct (config_known K) as [cfg Hc]. congruence.
      * split; discriminate.
      * intros c Hc. discriminate.
    + split; [|split].
      * split; [intros _; split; [discriminate|] | intros _; now eexists].
        apply config_exists_known. now exists cfg.
      * split; discriminate.
      * intros c [= <-]. now split.
Qed.

End Pipeline.

End PipelineMore.

(** * The console demo: simple_demo.py, with rag/vector_store.py *)

Module VectorStore.
Import PyStr DocumentProcessor Retrieval.

(** [VectorStoreManager()], over the collection as it was persisted. *)
Definition VectorStoreManager_init (stored : list Document)
  : list event * VectorStoreManager :=
  ([Printed (lit "VectorStoreManager initialized successfully.");
    Printed (lit "Collection '" ++ CHROMA_COLLECTION_NAME ++ lit "' loaded with "
             ++ str_of_nat (length stored) ++ lit " documents.")],
   {| collection := stored |}).

(** [add_documents]: nothing is done for an empty list; otherwise the
    collection takes the documents in, behind those it holds. *)
Definition add_documents (m : VectorStoreManager) (documents : list Document)
  : list event * VectorStoreManager :=
  match documents with
  | [] => ([Printed (lit "No documents to add.")], m)
  | _ :: _ =>
      ([Printed (lit "Adding " ++ str_of_nat (length documents)
                 ++ lit " chunks to the collection...");
        Printed (lit "Documents added successfully.")],
       {| collection := collection m ++ documents |})
  end.

(** [get_collection_status]: the name and the count. *)
Definition get_collection_status (m : VectorStoreManager) : str * nat :=
  (CHROMA_COLLECTION_NAME, length (collection m)).

End VectorStore.

Module SimpleDemo.
Import PyStr DocumentProcessor Retrieval VectorStore.

(** utils/config.py *)
Definition DEFAULT_MODEL : str := lit "Mistral".

(** [str.lower] on one character: the uppercase letters below 256 are A..Z
    and the letters from 192 to 222 other than 215. *)
Definition lower_char (c : ascii) : ascii :=
  if between 65 90 c || between 192 214 c || between 216 222 c
  then ascii_of_nat (code c + 32)
  else c.

Definition lower (s : str) : str := map lower_char s.

(** Python's [<] on strings: by code points, a proper leading part first. *)
Fixpoint str_ltb (a b : str) : bool :=
  match a, b with
  | _, [] => false
  | [], _ :: _ => true
  | x :: a', y :: b' =>
      if code x <? code y then true
      else if code y <? code x then false
      else str_ltb a' b'
  end.

(** [sorted(l)] on strings: ascending and stable. *)
Fixpoint insert_asc (x : str) (l : list str) : list str :=
  match l with
  | [] => [x]
  | y :: l' => if str_ltb y x then y :: insert_asc x l' else x :: l
  end.

Definition sorted_asc (l : list str) : list str := fold_right insert_asc [] l.

(** A set of strings, as the list of its elements; [s.add(x)]. *)
Definition set_add (s : list str) (x : str) : list str :=
  if in_dec (list_eq_dec ascii_dec) x s then s else s ++ [x].

Definition page_str (p : page_meta) : str :=
  match p with
  | PageNum n => str_of_nat n
  | PageNA => lit "N/A"
  end.

(** The source string of a document. *)
Definition source_str (doc : Document) : str :=
  lit "Page " ++ page_str (page (metadata doc))
  ++ lit ", Section: " ++ section (metadata doc).

(** The lines of the sources that are printed for one answer. *)
Definition source_lines (sources : list Document) : list str :=
  let unique_sources := fold_left set_add (map source_str sources) [] in
  sorted_asc unique_sources.

(** What the console gives to [input]: a line, or an interrupt
    ([KeyboardInterrupt] or [EOFError]); at the end of the list the input is
    at its end. *)
Inductive console : Type :=
| Line (s : str)
| Interrupt.

(** An entry of the documents directory, as [pathlib] reports it. *)
Record dir_entry : Type := { name : str; suffix : str; is_file : bool }.

(** What the demo does that can be observed: what it and the functions it
    calls print, the prompt of [input], and the questions put to the
    chain. *)
Inductive out : Type :=
| Lib (e : event)
| Prompt (text : str)
| Invoke (query : str).

Definition say (line : str) : out := Lib (Printed line).

Definition ask_prompt : str := nl :: lit "Ask about your policy: ".

(** What is printed for an answer. *)
Definition answer_lines (result : str) (sources : list Document) : list out :=
  [say (nl :: lit "--- Assistant's Response ---"); say (strip result)]
  ++ match sources with
     | [] => []
     | _ :: _ =>
         say (nl :: lit "--- Sources (Re-ranked and verified) ---")
         :: map (fun source => say (lit "- " ++ source)) (source_lines sources)
     end
  ++ [say (repeat "-"%char 25)].

Section Demo.

Variable score : Type.
Variable load : str -> str + CrossEncoder score.
Variable splitter : nat -> nat -> list str -> str -> list str.

(** [DOCS_DIR], as a string. *)
Variable DOCS_DIR : str.

(** [rag_chain.invoke]: the result and the source documents, or the
    exception that it raises. *)
Variable invoke : RetrievalQA score -> str -> exn + (str * list Document).

(** The question and answer loop.  The second component is the exception
    that left the loop, if one did. *)
Fixpoint qa_loop (rag_chain : RetrievalQA score) (inputs : list console)
  : list out * option exn :=
  match inputs with
  | [] => ([Prompt ask_prompt], None)
  | Interrupt :: _ => ([Prompt ask_prompt], None)
  | Line query :: rest =>
      if list_eq_dec ascii_dec (strip (lower query)) (lit "exit")
      then ([Prompt ask_prompt], None)
      else
        match strip query with
        | [] =>
            let '(o, e) := qa_loop rag_chain rest in
            (Prompt ask_prompt :: o, e)
        | _ :: _ =>
            let started :=
              [Prompt ask_prompt;
               say (nl :: lit "Expanding query, searching, re-ranking, and generating response...");
               Invoke query] in
            match invoke rag_chain query with
            | inl e => (started, Some e)
            | inr (result, sources) =>
                let '(o, e) := qa_loop rag_chain rest in
                (started ++ answer_lines result sources ++ o, e)
            end
        end
  end.

(** The world of a run: the persisted collection, the listing of the
    documents directory (or the message of the error of reaching it), the
    files, and the console. *)
Record World : Type :=
  { stored : list Document;
    docs_dir : str + list dir_entry;
    files : filesystem;
    inputs : list console }.

Definition is_pdf (f : dir_entry) : bool :=
  is_file f && if list_eq_dec ascii_dec (lower (suffix f)) (lit ".pdf") then true else false.

(** Step 2, the body of the [try] with its handler: the manager to go on
    with, or None when the demo returns. *)
Definition prepare (w : World) (vector_store_manager : VectorStoreManager)
  : list out * option VectorStoreManager :=
  if snd (get_collection_status vector_store_manager) =? 0 then
    let o1 := [say (lit "The vector database is empty. Processing documents...")] in
    match docs_dir w with
    | inl e =>
        (o1 ++ [say (nl :: lit "ERROR: Could not initialize the vector database: " ++ e)],
         None)
    | inr entries =>
        match filter is_pdf entries with
        | [] =>
            (o1 ++ [say (nl :: lit "ERROR: No PDF files found in '" ++ DOCS_DIR ++ lit "'.")],
             None)
        | pdf_path :: _ =>
            let o2 := [say (lit "Processing document: " ++ name pdf_path)] in
            let '(lines, doc_chunks) :=
              process_pdf splitter (files w) (DOCS_DIR ++ lit "/" ++ name pdf_path) in
            match doc_chunks with
            | [] =>
                (o1 ++ o2 ++ map say lines
                 ++ [say (lit "Could not process documents. Exiting.")],
                 None)
            | _ :: _ =>
                let '(o3, m) := add_documents vector_store_manager doc_chunks in
                (o1 ++ o2 ++ map say lines ++ map Lib o3, Some m)
            end
        end
    end
  else ([], Some vector_store_manager).

(** Steps 3 and 4: the chain and the loop. *)
Definition answer_questions (w : World) (vector_store_manager : VectorStoreManager)
  : list out * option exn :=
  let o1 := [say (nl :: lit "Configuring advanced RAG chain (Hybrid Search + Re-ranker)...")] in
  let '(p, chain) := get_rag_chain load DEFAULT_MODEL vector_store_manager in
  match chain with
  | inl e => (o1 ++ map Lib p, Some e)
  | inr None =>
      (o1 ++ map Lib p ++ [say (lit "Failed to initialize RAG chain. Exiting.")], None)
  | inr (Some rag_chain) =>
      let '(o, e) := qa_loop rag_chain (inputs w) in
      (o1 ++ map Lib p
       ++ [say (nl :: lit "✅ Advanced Policy Assistant ready. Type 'exit' to finish.")]
       ++ o
       ++ match e with
          | None => [say (nl :: lit "--- DEMO FINISHED ---")]
          | Some _ => []
          end,
       e)
  end.

Definition run_advanced_demo (w : World) : list out * option exn :=
  let o0 := [say (lit "--- STARTING ZURICH POLICY ASSISTANT ADVANCED CONSOLE DEMO ---")] in
  let '(p, vector_store_manager) := VectorStoreManager_init (stored w) in
  match prepare w vector_store_manager with
  | (o, None) => (o0 ++ map Lib p ++ o, None)
  | (o, Some m) =>
      let '(o', e) := answer_questions w m in
      (o0 ++ map Lib p ++ o ++ o', e)
  end.

End Demo.

End SimpleDemo.

Module StrOrder.
Import PyStr SimpleDemo.

Lemma code_inj (x y : ascii) : code x = code y -> x = y.
Proof.
  unfold code. intros H.
  rewrite <- (ascii_nat_embedding x), <- (ascii_nat_embedding y). now rewrite H.
Qed.

Lemma str_ltb_irrefl (a : str) : str_ltb a a = false.
Proof.
  induction a as [|x a IH]; simpl; [reflexivity|].
  now rewrite Nat.ltb_irrefl.
Qed.

(** Two strings are in order one way or the other, or equal. *)
Lemma str_ltb_trichotomy (a : str) :
  forall b, str_ltb a b = true \/ a = b \/ str_ltb b a = true.
Proof.
  induction a as [|x a IH]; intros [|y b]; simpl; auto.
  destruct (Nat.ltb_spec (code x) (code y)) as [H|H]; [now left|].
  destruct (Nat.ltb_spec (code y) (code x)) as [H'|H']; [now right; right|].
  assert (x = y) as -> by (apply code_inj; lia).
  destruct (IH b) as [L | [-> | G]]; auto.
Qed.

Lemma str_ltb_trans (a : str) :
  forall b c, str_ltb a b = true -> str_ltb b c = true -> str_ltb a c = true.
Proof.
  induction a as [|x a IH]; intros [|y b] [|z c]; simpl; try discriminate; auto.
  destruct (Nat.ltb_spec (code x) (code y)) as [H1|H1].
  - intros _. destruct (Nat.ltb_spec (code y) (code z)) as [H2|H2].
    + intros _. destruct (Nat.ltb_spec (code x) (code z)); [reflexivity | lia].
    + destruct (Nat.ltb_spec (code z) (code y)) as [H3|H3]; [discriminate|].
      intros _. destruct (Nat.ltb_spec (code x) (code z)); [reflexivity | lia].
  - destruct (Nat.ltb_spec (code y) (code x)) as [H1'|H1']; [discriminate|].
    intros Hab. destruct (Nat.ltb_spec (code y) (code z)) as [H2|H2].
    + intros _. destruct (Nat.ltb_spec (code x) (code z)); [reflexivity | lia].
    + destruct (Nat.ltb_spec (code z) (code y)) as [H3|H3]; [discriminate|].
      intros Hbc. destruct (Nat.ltb_spec (code x) (code z)); [reflexivity|].
      destruct (Nat.ltb_spec (code z) (code x)); [lia|].
      now apply (IH b c).
Qed.

Lemma str_ltb_asym (a b : str) : str_ltb a b = true -> str_ltb b a = false.
Proof.
  intros H. destruct (str_ltb b a) eqn:E; [|reflexivity].
  pose proof (str_ltb_trans _ _ _ H E) as C. now rewrite str_ltb_irrefl in C.
Qed.

(** [a] is not behind [b]. *)
Definition str_le (a b : str) : Prop := str_ltb b a = false.

Lemma str_le_trans (a b c : str) : str_le a b -> str_le b c -> str_le a c.
Proof.
  unfold str_le. intros H1 H2. destruct (str_ltb c a) eqn:E; [|reflexivity].
  destruct (str_ltb_trichotomy a b) as [L | [-> | G]]; [|congruence|congruence].
  rewrite (str_ltb_trans _ _ _ E L) in H2. discriminate.
Qed.

Lemma insert_asc_perm (x : str) (l : list str) : Permutation (x :: l) (insert_asc x l).
Proof.
  induction l as [|y l IH]; simpl; [apply Permutation_refl|].
  destruct (str_ltb y x); [|apply Permutation_refl].
  eapply perm_trans; [apply perm_swap|]. now apply perm_skip.
Qed.

Lemma sorted_asc_perm (l : list str) : Permutation l (sorted_asc l).
Proof.
  induction l as [|x l IH]; simpl; [apply perm_nil|].
  eapply perm_trans; [apply perm_skip, IH | apply insert_asc_perm].
Qed.

Lemma insert_asc_sorted (x : str) (l : list str) :
  StronglySorted str_le l -> StronglySorted str_le (insert_asc x l).
Proof.
  induction 1 as [|y l Hl IH Hy]; simpl.
  - constructor; constructor.
  - destruct (str_ltb y x) eqn:E.
    + constructor; [exact IH|].
      eapply Permutation_Forall; [apply insert_asc_perm|].
      constructor; [apply str_ltb_asym, E | exact Hy].
    + constructor; [now constructor|].
      constructor; [exact E|].
      eapply Forall_impl; [|exact Hy].
      intros z Hz. eapply str_le_trans; [exact E | exact Hz].
Qed.

Lemma sorted_asc_sorted (l : list str) : StronglySorted str_le (sorted_asc l).
Proof.
  induction l as [|x l IH]; simpl; [constructor | now apply insert_asc_sorted].
Qed.

(** A sorted list without repetition ascends strictly. *)
Lemma sorted_nodup_strict (l : list str) :
  StronglySorted str_le l -> NoDup l ->
  StronglySorted (fun a b => str_ltb a b = true) l.
Proof.
  induction 1 as [|x l Hl IH Hx]; intros Hn; [constructor|].
  inversion Hn as [|? ? Hnin Hn']; subst.
  constructor; [now apply IH|].
  rewrite Forall_forall in *. intros y Hy.
  destruct (str_ltb_trichotomy x y) as [L | [-> | G]]; [exact L | contradiction|].
  specialize (Hx y Hy). unfold str_le in Hx. congruence.
Qed.

Lemma set_add_spec (l : list str) :
  forall s, NoDup s ->
            NoDup (fold_left set_add l s)
            /\ forall x, In x (fold_left set_add l s) <-> In x s \/ In x l.
Proof.
  induction l as [|y l IH]; intros s Hs; simpl.
  - split; [exact Hs | intros x; tauto].
  - destruct (in_dec (list_eq_dec ascii_dec) y s) as [Hin|Hnin] eqn:D.
    + assert (E : set_add s y = s) by (unfold set_add; now rewrite D). rewrite E.
      destruct (IH s Hs) as [Hn Hm]. split; [exact Hn|].
      intros x. rewrite Hm. split; [tauto|]. intros [H | [<- | H]]; auto.
    + assert (E : set_add s y = s ++ [y]) by (unfold set_add; now rewrite D). rewrite E.
      assert (Hs' : NoDup (s ++ [y])).
      { apply NoDup_app; [exact Hs | repeat constructor; intros [] |].
        intros a Ha [<- | []]. contradiction. }
      destruct (IH _ Hs') as [Hn Hm]. split; [exact Hn|].
      intros x. rewrite Hm, in_app_iff. simpl. tauto.
Qed.

End StrOrder.

Module DemoProps.
Import PyStr DocumentProcessor Retrieval VectorStore SimpleDemo StrOrder PipelineMore.

(** X13.  The sources of an answer.  The source lines printed for an answer
    ascend strictly in the order of Python's strings, so none is printed
    twice, and a line is printed exactly when it is the source string of one
    of the source documents. *)
Theorem source_lines_sorted_unique (sources : list Document) :
  StronglySorted (fun a b => str_ltb a b = true) (source_lines sources)
  /\ forall line, In line (source_lines sources)
                  <-> exists doc, In doc sources /\ line = source_str doc.
Proof.
  unfold source_lines.
  destruct (set_add_spec (map source_str sources) (NoDup_nil str)) as [Hn Hm].
  pose proof (sorted_asc_perm (fold_left set_add (map source_str sources) [])) as Hp.
  split.
  - apply sorted_nodup_strict; [apply sorted_asc_sorted|].
    eapply Permutation_NoDup; [exact Hp | exact Hn].
  - intros line. split.
    + intros H. apply (Permutation_in _ (Permutation_sym Hp)) in H.
      apply Hm in H. destruct H as [[] | H].
      apply in_map_iff in H. destruct H as (doc & <- & Hd). now exists doc.
    + intros (doc & Hd & ->). apply (Permutation_in _ Hp), Hm. right.
      now apply in_map.
Qed.

(** The questions that a log shows to have been put to the chain. *)
Definition asked (log : list out) : list str :=
  flat_map (fun e => match e with Invoke q => [q] | _ => [] end) log.

(** The events that are printed lines. *)
Definition printed (e : out) : Prop := exists line, e = say line.

Lemma printed_app (l1 l2 : list out) :
  Forall printed l1 -> Forall printed l2 -> Forall printed (l1 ++ l2).
Proof. intros H1 H2. apply Forall_app. now split. Qed.

Lemma printed_cons (line : str) (l : list out) :
  Forall printed l -> Forall printed (say line :: l).
Proof. intros H. constructor; [now exists line | exact H]. Qed.

Lemma asked_app (l1 l2 : list out) : asked (l1 ++ l2) = asked l1 ++ asked l2.
Proof. apply flat_map_app. Qed.

Lemma asked_printed (l : list out) : Forall printed l -> asked l = [].
Proof.
  induction 1 as [|e l [line ->] _ IH]; [reflexivity | exact IH].
Qed.

Lemma printed_say (lines : list str) : Forall printed (map say lines).
Proof.
  induction lines; constructor; [now eexists | assumption].
Qed.

Lemma printed_lib (events : list event) :
  Forall (fun e => exists line, e = Printed line) events ->
  Forall printed (map Lib events).
Proof.
  induction 1 as [|e l [line ->] _ IH]; constructor; [now exists line | exact IH].
Qed.

Lemma answer_lines_printed (result : str) (sources : list Document) :
  Forall printed (answer_lines result sources).
Proof.
  unfold answer_lines. apply printed_app; [|apply printed_app].
  - now repeat apply printed_cons.
  - destruct sources; [constructor|].
    apply printed_cons. rewrite Forall_map. apply Forall_forall. intros x _. now eexists.
  - now apply printed_cons.
Qed.

(** The word that ends the loop: "exit" in any case, with whitespace around
    it. *)
Definition is_exit (query : str) : Prop := strip (lower query) = lit "exit".

(** What ends the loop: the word, or an interrupt. *)
Definition stops (x : console) : Prop :=
  x = Interrupt \/ exists query, x = Line query /\ is_exit query.

Definition non_blank (query : str) : bool :=
  match strip query with
  | [] => false
  | _ :: _ => true
  end.

Section Demo.

Variable score : Type.
Variable load : str -> str + CrossEncoder score.
Variable splitter : nat -> nat -> list str -> str -> list str.
Variable DOCS_DIR : str.
Variable invoke : RetrievalQA score -> str -> exn + (str * list Document).

(** X14.  The questions of a session.  When no question makes the chain raise,
    the chain is asked exactly the lines typed before the first "exit" or
    interrupt (or before the end of the input) that are not blank, as they
    were typed and in their order; what follows is not read, and the loop
    ends without an exception. *)
Theorem qa_loop_asks (rag_chain : RetrievalQA score) (typed : list str) (rest : list console) :
  Forall (fun query => ~ is_exit query) typed ->
  (rest = [] \/ exists x rest', rest = x :: rest' /\ stops x) ->
  (forall query, In query typed -> exists r, invoke rag_chain query = inr r) ->
  asked (fst (qa_loop invoke rag_chain (map Line typed ++ rest))) = filter non_blank typed
  /\ snd (qa_loop invoke rag_chain (map Line typed ++ rest)) = None.
Proof.
  intros Hne Hrest. induction typed as [|query typed IH]; intros Hok.
  - cbn [map app]. destruct Hrest as [-> | (x & rest' & -> & [-> | (q & -> & Hq)])].
    + now split.
    + now split.
    + cbn [qa_loop]. unfold is_exit in Hq.
      destruct (list_eq_dec ascii_dec (strip (lower q)) (lit "exit")); [now split | contradiction].
  - inversion Hne as [|? ? Hq Hne']; subst.
    specialize (IH Hne' (fun q H => Hok q (or_intror H))).
    cbn [map app qa_loop filter]. unfold is_exit in Hq.
    destruct (list_eq_dec ascii_dec (strip (lower query)) (lit "exit")); [contradiction|].
    unfold non_blank at 1.
    destruct (strip query) as [|c r] eqn:S.
    + destruct (qa_loop invoke rag_chain (map Line typed ++ rest)) as [o e].
      exact IH.
    + destruct (Hok query (or_introl eq_refl)) as [[result sources] ->].
      destruct (qa_loop invoke rag_chain (map Line typed ++ rest)) as [o e].
      cbn [fst snd] in *. destruct IH as [IH1 IH2]. split; [|exact IH2].
      change (query :: asked (answer_lines result sources ++ o) = query :: filter non_blank typed).
      rewrite asked_app, (asked_printed (answer_lines_printed result sources)), IH1.
      reflexivity.
Qed.

(** The documents that a run has to answer from: the persisted collection,
    or, when that is empty, the chunks of the first PDF file of the
    documents directory. *)
Definition corpus (w : World) : list Document :=
  match stored w with
  | _ :: _ => stored w
  | [] =>
      match docs_dir w with
      | inl _ => []
      | inr entries =>
          match filter is_pdf entries with
          | [] => []
          | pdf_path :: _ =>
              snd (process_pdf splitter (files w) (DOCS_DIR ++ lit "/" ++ name pdf_path))
          end
      end
  end.

Lemma prepare_corpus (w : World) :
  match corpus w with
  | [] => snd (prepare splitter DOCS_DIR w {| collection := stored w |}) = None
          /\ Forall printed (fst (prepare splitter DOCS_DIR w {| collection := stored w |}))
  | _ :: _ => snd (prepare splitter DOCS_DIR w {| collection := stored w |})
              = Some {| collection := corpus w |}
  end.
Proof.
  unfold corpus, prepare, get_collection_status. cbn [snd collection].
  destruct (stored w) as [|d ds] eqn:St; cbn [length Nat.eqb]; [|reflexivity].
  destruct (docs_dir w) as [msg|entries].
  - split; [reflexivity|]. cbn [fst app]. now repeat apply printed_cons.
  - destruct (filter is_pdf entries) as [|f fs].
    + split; [reflexivity|]. cbn [fst app]. now repeat apply printed_cons.
    + destruct (process_pdf splitter (files w) (DOCS_DIR ++ lit "/" ++ name f))
        as [lines chunks].
      cbn [snd]. destruct chunks as [|c cs].
      * split; [reflexivity|]. cbn [fst app].
        do 2 apply printed_cons. apply printed_app; [apply printed_say|].
        now apply printed_cons.
      * reflexivity.
Qed.

(** X15.  No documents, no questions.  When the persisted collection is empty
    and the documents directory cannot be read, holds no PDF file, or its
    first PDF file gives no chunk, the demo prints its messages and returns:
    it raises nothing, reads no input and asks the chain nothing. *)
Theorem demo_without_documents (w : World) :
  corpus w = [] ->
  snd (run_advanced_demo load splitter DOCS_DIR invoke w) = None
  /\ Forall printed (fst (run_advanced_demo load splitter DOCS_DIR invoke w))
  /\ asked (fst (run_advanced_demo load splitter DOCS_DIR invoke w)) = [].
Proof.
  intros Hc. pose proof (prepare_corpus w) as P. rewrite Hc in P.
  destruct P as [P1 P2].
  assert (H : snd (run_advanced_demo load splitter DOCS_DIR invoke w) = None
              /\ Forall printed (fst (run_advanced_demo load splitter DOCS_DIR invoke w))).
  { unfold run_advanced_demo, VectorStoreManager_init.
    destruct (prepare splitter DOCS_DIR w {| collection := stored w |}) as [o [m|]];
      [discriminate|].
    cbn [fst snd] in *. split; [reflexivity|]. cbn [app map].
    do 3 apply printed_cons. exact P2. }
  destruct H as [H1 H2]. split; [exact H1 | split; [exact H2 | now apply asked_printed]].
Qed.

Lemma init_printed (n : Z) :
  Forall (fun e => exists line, e = Printed line) (fst (init load n)).
Proof.
  unfold init. destruct (load default_model_name); cbn [fst];
    repeat (constructor; [now eexists|]); constructor.
Qed.

Lemma get_advanced_retriever_printed (m : VectorStoreManager) (model_key : str) :
  Forall (fun e => exists line, e = Printed line)
         (fst (get_advanced_retriever load m model_key)).
Proof.
  unfold get_advanced_retriever, get_all_documents, get_chat_model.
  destruct (collection m) as [|d ds].
  - cbn [fst app]. repeat (constructor; [now eexists|]). constructor.
  - destruct (_get_common_config model_key) as [e|cfg].
    + cbn [fst app]. repeat (constructor; [now eexists|]). constructor.
    + pose proof (init_printed 4) as H4.
      destruct (init load 4) as [p4 rr]. cbn [fst app] in *.
      repeat (constructor; [now eexists|]).
      apply Forall_app. split; [exact H4|].
      repeat (constructor; [now eexists|]). constructor.
Qed.

Lemma get_rag_chain_printed (model_key : str) (m : VectorStoreManager) :
  Forall (fun e => exists line, e = Printed line)
         (fst (get_rag_chain load model_key m)).
Proof.
  unfold get_rag_chain, get_llm.
  pose proof (get_advanced_retriever_printed m model_key) as H1.
  destruct (get_advanced_retriever load m model_key) as [p1 [e|[r|]]]; cbn [fst] in *.
  - now constructor; [eexists|].
  - destruct (_get_common_config model_key) as [e|cfg]; cbn [fst].
    + constructor; [now eexists|]. apply Forall_app. split; [exact H1|].
      repeat (constructor; [now eexists|]). constructor.
    + constructor; [now eexists|]. apply Forall_app. split; [exact H1|].
      repeat (constructor; [now eexists|]). constructor.
  - now constructor; [eexists|].
Qed.

Lemma default_model_chain (docs : list Document) :
  docs <> [] ->
  exists rag_chain,
    snd (get_rag_chain load DEFAULT_MODEL {| collection := docs |}) = inr (Some rag_chain).
Proof.
  intros Hne. rewrite get_rag_chain_result.
  rewrite (@get_advanced_retriever_nonempty _ load {| collection := docs |} DEFAULT_MODEL Hne).
  destruct (@config_known DEFAULT_MODEL (or_introl eq_refl)) as [cfg ->].
  now eexists.
Qed.

Lemma prepare_printed (w : World) (m : VectorStoreManager) :
  Forall printed (fst (prepare splitter DOCS_DIR w m)).
Proof.
  unfold prepare.
  destruct (snd (get_collection_status m) =? 0); [|constructor].
  destruct (docs_dir w) as [msg|entries].
  - cbn [fst app]. now repeat apply printed_cons.
  - destruct (filter is_pdf entries) as [|f fs].
    + cbn [fst app]. now repeat apply printed_cons.
    + destruct (process_pdf splitter (files w) (DOCS_DIR ++ lit "/" ++ name f))
        as [lines chunks].
      destruct chunks as [|c cs].
      * cbn [fst app]. do 2 apply printed_cons.
        apply printed_app; [apply printed_say | now apply printed_cons].
      * cbn [add_documents fst app]. do 2 apply printed_cons.
        apply printed_app; [apply printed_say|].
        apply printed_lib. repeat (constructor; [now eexists|]). constructor.
Qed.

(** X16.  With documents, the chain is always built.  When the persisted
    collection holds a chunk, or else the first PDF file of the documents
    directory gives one, the chain is built over exactly these documents
    (the branch for a missing chain is not taken), and the session is the
    question and answer loop over that chain: the same questions are asked
    and the run ends as the loop ends. *)
Theorem demo_answers_over_corpus (w : World) :
  corpus w <> [] ->
  exists rag_chain,
    snd (get_rag_chain load DEFAULT_MODEL {| collection := corpus w |})
    = inr (Some rag_chain)
    /\ asked (fst (run_advanced_demo load splitter DOCS_DIR invoke w))
       = asked (fst (qa_loop invoke rag_chain (inputs w)))
    /\ snd (run_advanced_demo load splitter DOCS_DIR invoke w)
       = snd (qa_loop invoke rag_chain (inputs w)).
Proof.
  intros Hc. destruct (default_model_chain Hc) as [rag_chain R].
  exists rag_chain. split; [exact R|].
  pose proof (prepare_corpus w) as P.
  pose proof (prepare_printed w {| collection := stored w |}) as Ho.
  pose proof (get_rag_chain_printed DEFAULT_MODEL {| collection := corpus w |}) as Hp.
  destruct (corpus w) as [|d ds] eqn:C; [congruence|].
  unfold run_advanced_demo, VectorStoreManager_init.
  destruct (prepare splitter DOCS_DIR w {| collection := stored w |}) as [o [m|]];
    cbn [fst snd] in *; [|discriminate].
  injection P as ->.
  unfold answer_questions.
  destruct (get_rag_chain load DEFAULT_MODEL {| collection := d :: ds |}) as [p chain].
  cbn [fst snd] in *. subst chain.
  destruct (qa_loop invoke rag_chain (inputs w)) as [o' e]. cbn [fst snd].
  split; [|reflexivity].
  apply printed_lib in Hp.
  cbn [map app]. unfold say at 1 2 3. cbn [asked flat_map app].
  fold (asked (o ++ say (nl :: lit "Configuring advanced RAG chain (Hybrid Search + Re-ranker)...")
                 :: map Lib p
                 ++ say (nl :: lit "✅ Advanced Policy Assistant ready. Type 'exit' to finish.")
                 :: o' ++ match e with
                          | None => [say (nl :: lit "--- DEMO FINISHED ---")]
                          | Some _ => []
                          end)).
  rewrite asked_app, (asked_printed Ho). cbn [app asked flat_map say].
  fold (asked (map Lib p
               ++ say (nl :: lit "✅ Advanced Policy Assistant ready. Type 'exit' to finish.")
               :: o' ++ match e with
                        | None => [say (nl :: lit "--- DEMO FINISHED ---")]
                        | Some _ => []
                        end)).
  rewrite asked_app, (asked_printed Hp). cbn [app asked flat_map say].
  fold (asked (o' ++ match e with
                     | None => [say (nl :: lit "--- DEMO FINISHED ---")]
                     | Some _ => []
                     end)).
  rewrite asked_app. destruct e; cbn; now rewrite app_nil_r.
Qed.

End Demo.

End DemoProps.

(** * models/prompt_templates.py *)

Module PromptTemplates.
Import PyStr.

(** The double quote. *)
Definition dq : ascii := "034"%char.

(** [d.get(k)] on a dict with string keys, None when the key is missing. *)
Fixpoint dict_lookup {V : Type} (k : str) (d : list (str * V)) : option V :=
  match d with
  | [] => None
  | (k', v) :: d' => if list_eq_dec ascii_dec k k' then Some v else dict_lookup k d'
  end.

(** [sep.join(parts)] *)
Fixpoint join (sep : str) (parts : list str) : str :=
  match parts with
  | [] => []
  | [p] => p
  | p :: rest => p ++ sep ++ join sep rest
  end.

Definition base_system_prompt : str :=
  lit "You are a world-class specialized assistant for Zurich Insurance policies.
Your primary directive is to provide precise, factual, and helpful answers to users about their life insurance coverage.

**CRITICAL INSTRUCTIONS - FOLLOW THESE AT ALL TIMES:**
1.  **Grounding:** Your entire response MUST be based EXCLUSIVELY on the information provided in the 'POLICY INFORMATION' context. Do not use any prior knowledge.
2.  **No Hallucination:** If the answer is not in the provided context, you MUST state: " ++ [dq] ++ lit "I could not find specific information about this topic in the policy." ++ [dq] ++ lit " Do NOT invent, infer, or guess information.
3.  **Citation is Mandatory:** For every piece of information you provide, you MUST cite the source (e.g., `[page 5]`, `[Section: Eligibility, page 12]`). If a page is not available, cite the section.
4.  **Precision:** Quote specific amounts, dates, percentages, and deadlines exactly as they appear in the context.
5.  **Self-Correction:** Before generating the final answer, internally review your response to ensure it strictly adheres to all these instructions.
".

Definition tone_adaptations : list (str * str) :=
  [(lit "benefits",
    lit "Your goal is to clarify value. Be meticulous with numbers and conditions. Structure the answer to be easily scannable.");
   (lit "definitions",
    lit "Your goal is to provide clarity. Act like a teacher. Explain complex terms simply after quoting them.");
   (lit "claims",
    lit "Your goal is to guide the user. Use a professional, calm, and empathetic tone. Provide a step-by-step checklist.");
   (lit "eligibility",
    lit "Your goal is to verify requirements. Be direct and factual. Use a checklist format to compare policy rules with user data if available.");
   (lit "policy_admin",
    lit "Your goal is to explain processes. Be formal and procedural. Clearly distinguish between employee and employer responsibilities.");
   (lit "general",
    lit "Your goal is to be a helpful navigator. Be conversational but always ground your answers in the provided text and suggest more specific queries.")].

Definition mode_instructions : list (str * str) :=
  [(lit "concise",
    lit "Provide a direct, summary-level answer. Get straight to the point.");
   (lit "detailed",
    lit "Provide a comprehensive answer. Include explanations, examples, and related details found in the context.");
   (lit "custom",
    lit "Adapt the level of detail based on the user's question. A simple question gets a simple answer; a complex one gets a more detailed breakdown.")].

Definition _get_benefits_template (response_mode : str) : str :=
  lit "User's Question: {query}

POLICY INFORMATION:
{context}
{user_info}

INSTRUCTIONS:
1.  **Thought Process:**
    a. Identify the specific benefit in the user's query.
    b. Scan the context for all monetary amounts, percentages, and conditions related to this benefit.
    c. If user information (like age) is available, check for clauses on how it affects the benefit.
    d. Structure the answer logically before writing.
2.  **Answer Generation:**
    a. Start with the primary coverage amount.
    b. List any conditions or requirements for the benefit to be paid.
    c. Detail any reductions (e.g., age-based) or exclusions.
    d. Cite the source for every piece of data (e.g., `[page 10]`).

METADATA: {metadata}
Response Confidence: {confidence_level}

Answer the user's question:".

Definition _get_definitions_template (response_mode : str) : str :=
  lit "User's Question: {query}

DEFINITIONS IN THE POLICY:
{context}
{user_info}

INSTRUCTIONS:
1.  **Thought Process:**
    a. Locate the exact definition for the term in the user's query.
    b. Analyze the definition: is it complex? Does it reference other terms?
    c. Think of a simple analogy or example to clarify it.
2.  **Answer Generation:**
    a. Quote the definition verbatim from the policy, followed by its source citation.
    b. In a new paragraph, explain the definition in simple, clear language.
    c. Provide a practical example of how this term applies.

METADATA: {metadata}
Response Confidence: {confidence_level}

Answer the user's question:".

Definition _get_claims_template (response_mode : str) : str :=
  lit "User's Question: {query}

CLAIMS INFORMATION IN THE POLICY:
{context}
{user_info}

INSTRUCTIONS:
1.  **Thought Process:**
    a. Identify all steps, deadlines, and required documents for filing a claim from the context.
    b. Organize these findings into a chronological sequence.
    c. Create a summary of all critical deadlines.
2.  **Answer Generation:**
    a. Present the claims process as a numbered list (Step 1, Step 2, ...).
    b. For each step, specify the action, any required documents, and the deadline.
    c. Add a separate " ++ [dq] ++ lit "Key Deadlines" ++ [dq] ++ lit " section for emphasis.
    d. Cite the source for each step and deadline.

METADATA: {metadata}
Response Confidence: {confidence_level}

Answer the user's question:".

Definition _get_eligibility_template (response_mode : str) : str :=
  lit "User's Question: {query}

ELIGIBILITY REQUIREMENTS IN THE POLICY:
{context}
{user_info}

INSTRUCTIONS:
1.  **Thought Process:**
    a. Extract all eligibility criteria from the context (e.g., active work, minimum hours, waiting periods).
    b. Format these criteria as a checklist.
    c. If user information is available, compare it against the checklist items.
2.  **Answer Generation:**
    a. Present the requirements as a clear checklist.
    b. For each item, state the rule from the policy and cite the source.
    c. If user data is present, add a " ++ [dq] ++ lit "Your Status" ++ [dq] ++ lit " section and assess if the user seems to meet each criterion, explicitly stating that this is based only on the data provided.

METADATA: {metadata}
Response Confidence: {confidence_level}

Answer the user's question:".

Definition _get_admin_template (response_mode : str) : str :=
  lit "User's Question: {query}

ADMINISTRATIVE INFORMATION IN THE POLICY:
{context}
{user_info}

INSTRUCTIONS:
1.  **Thought Process:**
    a. Identify the administrative process in the query (e.g., renewal, beneficiary change).
    b. Distinguish between tasks for the employee and tasks for the employer.
    c. Note any forms, contact points, or deadlines.
2.  **Answer Generation:**
    a. Clearly explain the process step-by-step.
    b. Use headings like " ++ [dq] ++ lit "Your Responsibilities" ++ [dq] ++ lit " and " ++ [dq] ++ lit "Employer's Responsibilities" ++ [dq] ++ lit " if applicable.
    c. Provide all relevant details like deadlines or required forms, citing sources for each.

METADATA: {metadata}
Response Confidence: {confidence_level}

Answer the user's question:".

Definition _get_general_template (response_mode : str) : str :=
  lit "User's Question: {query}

RELEVANT POLICY INFORMATION:
{context}
{user_info}

INSTRUCTIONS:
1.  **Thought Process:**
    a. Read the user's question and break it down into its core components.
    b. Scan the context for any information relevant to these components.
    c. Organize the findings into logical themes.
2.  **Answer Generation:**
    a. Address each part of the user's question in a separate, well-organized paragraph.
    b. Ensure every statement is backed by information from the context and properly cited.
    c. If the context is vague, suggest a more specific follow-up question the user could ask.

METADATA: {metadata}
Response Confidence: {confidence_level}

Answer the user's question:".

Definition suggestions_map : list (str * list str) :=
  [(lit "benefits",
    [lit "How does my age affect the benefits?";
     lit "What additional benefits do I have for accidental death?";
     lit "When are the benefits reduced?"]);
   (lit "definitions",
    [lit "What other important terms should I know?";
     lit "How does this definition apply in my case?";
     lit "Are there any exceptions to this definition?"]);
   (lit "claims",
    [lit "What exact documents do I need for a claim?";
     lit "How long does it take to process a claim?";
     lit "Who can file a claim on my behalf?"]);
   (lit "eligibility",
    [lit "When is the next enrollment period?";
     lit "What if I'm not eligible now?";
     lit "Can I add my dependents to the policy?"]);
   (lit "policy_admin",
    [lit "How can I change my beneficiary?";
     lit "When can I make changes to my policy?";
     lit "How do I renew my coverage annually?"])].

Definition default_suggestions : list str :=
  [lit "Explain more about my life coverage.";
   lit "What other benefits does my policy include?";
   lit "What is the process for filing a claim?"].

(** [get_system_prompt]; None stands for the [KeyError] of a subscript. *)
Definition get_system_prompt (query_type response_mode : str) : option str :=
  match dict_lookup (lit "general") tone_adaptations,
        dict_lookup (lit "custom") mode_instructions with
  | Some general, Some custom =>
      let adaptation :=
        match dict_lookup query_type tone_adaptations with
        | Some a => a
        | None => general
        end in
      let mode_instruction :=
        match dict_lookup response_mode mode_instructions with
        | Some i => i
        | None => custom
        end in
      Some (base_system_prompt ++ [nl; nl] ++ lit "**TASK-SPECIFIC DIRECTIVE:** " ++ adaptation
            ++ [nl; nl] ++ lit "**RESPONSE DETAIL LEVEL:** " ++ mode_instruction)
  | _, _ => None
  end.

(** A value of a metadata dict, and how an f-string prints it. *)
Inductive pyval : Type :=
| PyStr (s : str)
| PyInt (n : Z).

Definition py_str (v : pyval) : str :=
  match v with
  | PyStr s => s
  | PyInt n => list_ascii_of_string (NilEmpty.string_of_int (Z.to_int n))
  end.

(** A retrieved chunk as [_build_context_section] reads it: the content, and
    the metadata dict when the key is there. *)
Record Context : Type :=
  { content : str; ctx_metadata : option (list (str * pyval)) }.

Definition context_part (i : nat) (ctx : Context) : str :=
  let metadata := match ctx_metadata ctx with Some m => m | None => [] end in
  let page := match dict_lookup (lit "page") metadata with
              | Some v => v
              | None => PyStr (lit "N/A")
              end in
  let chunk_type := match dict_lookup (lit "chunk_type") metadata with
                    | Some v => v
                    | None => PyStr (lit "general")
                    end in
  nl :: lit "--- Source " ++ str_of_nat i ++ lit " (Page: " ++ py_str page
  ++ lit ", Section: " ++ py_str chunk_type ++ lit ") ---" ++ nl :: content ctx.

(** The loop over [enumerate(contexts, i)]. *)
Fixpoint context_parts (i : nat) (contexts : list Context) : list str :=
  match contexts with
  | [] => []
  | ctx :: rest => context_part i ctx :: context_parts (S i) rest
  end.

Definition context_note : str :=
  lit "## NOTE: Initial instruction for the LLM." ++ nl
  :: lit "The following are excerpts from the user's insurance policy. This is the ONLY source of truth you can use.".

Definition _build_context_section (contexts : list Context) : str :=
  match contexts with
  | [] => lit "No specific information was found in the policy for this query."
  | _ :: _ => join [nl] (context_note :: context_parts 1 contexts)
  end.

(** [_get_query_template]; None stands for the [KeyError] of the
    subscript. *)
Definition _get_query_template (query_type response_mode : str) : option str :=
  let templates :=
    [(lit "benefits", _get_benefits_template response_mode);
     (lit "definitions", _get_definitions_template response_mode);
     (lit "claims", _get_claims_template response_mode);
     (lit "eligibility", _get_eligibility_template response_mode);
     (lit "policy_admin", _get_admin_template response_mode);
     (lit "general", _get_general_template response_mode)] in
  match dict_lookup (lit "general") templates with
  | Some general =>
      Some match dict_lookup query_type templates with
           | Some t => t
           | None => general
           end
  | None => None
  end.

Definition get_follow_up_suggestions (query_type : str) : list str :=
  match dict_lookup query_type suggestions_map with
  | Some l => l
  | None => default_suggestions
  end.

End PromptTemplates.

Module PromptProps.
Import PyStr PyStrFacts PromptTemplates.

Lemma dict_lookup_in (V : Type) (k : str) (d : list (str * V)) (v : V) :
  dict_lookup k d = Some v -> In v (map snd d).
Proof.
  induction d as [|[k' v'] d IH]; simpl; [discriminate|].
  destruct (list_eq_dec ascii_dec k k'); [intros [= <-]; now left | right; now apply IH].
Qed.

Lemma general_tone : exists g, dict_lookup (lit "general") tone_adaptations = Some g.
Proof. eexists. vm_compute. reflexivity. Qed.

Lemma custom_mode : exists c, dict_lookup (lit "custom") mode_instructions = Some c.
Proof. eexists. vm_compute. reflexivity. Qed.

Lemma dict_lookup_some (V : Type) (k : str) (d : list (str * V)) (v : V) :
  dict_lookup k d = Some v -> In (k, v) d.
Proof.
  induction d as [|[k' v'] d IH]; simpl; [discriminate|].
  destruct (list_eq_dec ascii_dec k k') as [->|_];
    [intros [= <-]; now left | right; now apply IH].
Qed.

Lemma dict_lookup_none (V : Type) (k : str) (d : list (str * V)) :
  dict_lookup k d = None -> ~ In k (map fst d).
Proof.
  induction d as [|[k' v'] d IH]; simpl; [tauto|].
  destruct (list_eq_dec ascii_dec k k') as [->|N]; [discriminate|].
  intros H [E|HIn]; [now apply N | now apply IH].
Qed.

(** A key that occurs once has one value, and [get] returns it. *)
Lemma dict_lookup_unique (V : Type) (k : str) (d : list (str * V)) (v : V) :
  NoDup (map fst d) -> In (k, v) d -> dict_lookup k d = Some v.
Proof.
  induction d as [|[k' v'] d IH]; simpl; [tauto|].
  intros N [[= -> ->]|HIn].
  - destruct (list_eq_dec ascii_dec k k); [reflexivity | congruence].
  - inversion N as [|? ? Hk Hd]; subst.
    destruct (list_eq_dec ascii_dec k k') as [->|_]; [|now apply IH].
    exfalso. apply Hk. change k' with (fst (k', v)). now apply in_map.
Qed.

(** A check of distinctness that runs. *)
Fixpoint distinct (A : Type) (dec : forall x y : A, {x = y} + {x <> y}) (l : list A) : bool :=
  match l with
  | [] => true
  | x :: r => (if in_dec dec x r then false else true) && distinct dec r
  end.

Lemma distinct_NoDup (A : Type) (dec : forall x y : A, {x = y} + {x <> y}) (l : list A) :
  distinct dec l = true -> NoDup l.
Proof.
  induction l as [|x r IH]; simpl; [constructor|].
  destruct (in_dec dec x r); [discriminate|].
  intros H. constructor; [assumption | now apply IH].
Qed.

Definition str_dec : forall x y : str, {x = y} + {x <> y} := list_eq_dec ascii_dec.

Lemma tone_keys : NoDup (map fst tone_adaptations).
Proof. apply (distinct_NoDup str_dec). vm_compute. reflexivity. Qed.

Lemma mode_keys : NoDup (map fst mode_instructions).
Proof. apply (distinct_NoDup str_dec). vm_compute. reflexivity. Qed.

(** X17.  The system prompt.  For every query type and response mode the
    system prompt is made without a [KeyError]: it is the base prompt with
    its grounding instructions, then a directive and a detail level.  The
    directive is the one that the table gives to the query type when the
    query type is one of its six keys, and else the one it gives to
    "general"; the detail level is the one that the table gives to the
    response mode when that is one of its three keys, and else the one it
    gives to "custom".  No key occurs twice in a table, so each key has one
    directive or level. *)
Theorem get_system_prompt_fallback (query_type response_mode : str) :
  NoDup (map fst tone_adaptations)
  /\ NoDup (map fst mode_instructions)
  /\ (exists adaptation mode_instruction,
        get_system_prompt query_type response_mode
        = Some (base_system_prompt ++ [nl; nl] ++ lit "**TASK-SPECIFIC DIRECTIVE:** "
                ++ adaptation ++ [nl; nl] ++ lit "**RESPONSE DETAIL LEVEL:** "
                ++ mode_instruction)
        /\ (In (query_type, adaptation) tone_adaptations
            \/ ~ In query_type (map fst tone_adaptations)
               /\ In (lit "general", adaptation) tone_adaptations)
        /\ (In (response_mode, mode_instruction) mode_instructions
            \/ ~ In response_mode (map fst mode_instructions)
               /\ In (lit "custom", mode_instruction) mode_instructions))
  /\ (dict_lookup query_type tone_adaptations = None ->
      get_system_prompt query_type response_mode
      = get_system_prompt (lit "general") response_mode)
  /\ (dict_lookup response_mode mode_instructions = None ->
      get_system_prompt query_type response_mode
      = get_system_prompt query_type (lit "custom")).
Proof.
  destruct general_tone as [g Hg]. destruct custom_mode as [c Hc].
  split; [exact tone_keys | split; [exact mode_keys|]].
  unfold get_system_prompt. rewrite Hg, Hc.
  split; [|split].
  - destruct (dict_lookup query_type tone_adaptations) as [a|] eqn:A;
      destruct (dict_lookup response_mode mode_instructions) as [i|] eqn:I;
      eexists _, _; (split; [reflexivity|]); split;
      try (left; now apply dict_lookup_some);
      right; (split; [now apply dict_lookup_none | now apply dict_lookup_some]).
  - intros ->. reflexivity.
  - intros ->. reflexivity.
Qed.

Lemma join_occurs (sep p : str) (parts : list str) :
  In p parts -> occurs_in p (join sep parts).
Proof.
  induction parts as [|q parts IH]; [intros []|].
  intros [-> | H].
  - destruct parts as [|r parts].
    + exists [], []. simpl. now rewrite app_nil_r.
    + exists [], (sep ++ join sep (r :: parts)). reflexivity.
  - destruct parts as [|r parts]; [destruct H|].
    destruct (IH H) as (pre & post & E).
    exists (q ++ sep ++ pre), post.
    change (join sep (q :: r :: parts)) with (q ++ sep ++ join sep (r :: parts)).
    rewrite E, <- !app_assoc. reflexivity.
Qed.

Lemma context_parts_nth (contexts : list Context) :
  forall i n ctx,
    nth_error contexts n = Some ctx ->
    In (context_part (i + n) ctx) (context_parts i contexts).
Proof.
  induction contexts as [|c contexts IH]; intros i [|n] ctx H; simpl in H; try discriminate.
  - injection H as <-. left. now rewrite Nat.add_0_r.
  - right. replace (i + S n) with (S i + n) by lia. now apply IH.
Qed.

(** X18.  The context section.  For a non-empty list of retrieved chunks the
    section opens with the note that the excerpts are the only source of
    truth and holds, for each chunk, its numbered header with its content
    behind it, the numbers running from 1 in the order of the list; for the
    empty list it is the sentence that nothing was found. *)
Theorem build_context_section_blocks (contexts : list Context) :
  (contexts = [] ->
   _build_context_section contexts
   = lit "No specific information was found in the policy for this query.")
  /\ (contexts <> [] ->
      (exists rest, _build_context_section contexts = context_note ++ rest)
      /\ forall n ctx,
           nth_error contexts n = Some ctx ->
           occurs_in (nl :: lit "--- Source " ++ str_of_nat (n + 1)
                      ++ lit " (Page: "
                      ++ py_str match dict_lookup (lit "page")
                                        match ctx_metadata ctx with Some m => m | None => [] end with
                                | Some v => v
                                | None => PyStr (lit "N/A")
                                end
                      ++ lit ", Section: "
                      ++ py_str match dict_lookup (lit "chunk_type")
                                        match ctx_metadata ctx with Some m => m | None => [] end with
                                | Some v => v
                                | None => PyStr (lit "general")
                                end
                      ++ lit ") ---" ++ nl :: content ctx)
                     (_build_context_section contexts)).
Proof.
  split; [intros ->; reflexivity|].
  intros Hne. destruct contexts as [|c contexts]; [congruence|].
  unfold _build_context_section. split.
  - eexists. cbn [context_parts join]. reflexivity.
  - intros n ctx H. apply join_occurs. right.
    replace (n + 1) with (1 + n) by lia.
    exact (context_parts_nth _ 1 _ H).
Qed.

(** The fields that [get_user_prompt] fills in. *)
Definition template_fields : list str :=
  [lit "{query}"; lit "{context}"; lit "{user_info}"; lit "{metadata}";
   lit "{confidence_level}"].

Definition has_fields (template : str) : bool :=
  forallb (fun field => contains field template) template_fields.

(** X19.  The query templates.  For every query type and response mode a
    template is returned without a [KeyError], that of "general" for a query
    type that is not a key, and it holds each of the five fields that
    [get_user_prompt] fills in: the question, the context, the user
    information, the metadata and the confidence level. *)
Theorem get_query_template_fields (query_type response_mode : str) :
  exists template,
    _get_query_template query_type response_mode = Some template
    /\ Forall (fun field => occurs_in field template) template_fields
    /\ (~ In query_type [lit "benefits"; lit "definitions"; lit "claims";
                         lit "eligibility"; lit "policy_admin"; lit "general"] ->
        template = _get_general_template response_mode).
Proof.
  unfold _get_query_template.
  set (templates := [(lit "benefits", _); _; _; _; _; _]).
  assert (Hg : dict_lookup (lit "general") templates = Some (_get_general_template response_mode))
    by (vm_compute; reflexivity).
  assert (Hall : Forall (fun t => has_fields t = true) (map snd templates))
    by (repeat constructor; vm_compute; reflexivity).
  rewrite Hg. eexists. split; [reflexivity | split].
  - assert (Ht : has_fields match dict_lookup query_type templates with
                            | Some t => t
                            | None => _get_general_template response_mode
                            end = true).
    { rewrite Forall_forall in Hall.
      destruct (dict_lookup query_type templates) as [t|] eqn:E.
      - apply Hall. now apply dict_lookup_in with (k := query_type).
      - apply Hall. now apply dict_lookup_in with (k := lit "general"). }
    unfold has_fields in Ht. rewrite forallb_forall in Ht.
    apply Forall_forall. intros f Hf. apply contains_spec. now apply Ht.
  - intros Hn. subst templates. cbn [dict_lookup].
    repeat match goal with
           | |- context [list_eq_dec ascii_dec query_type ?k] =>
               destruct (list_eq_dec ascii_dec query_type k) as [->|_];
               [exfalso; apply Hn; simpl; tauto|]
           end.
    reflexivity.
Qed.

(** The two parts of a list without repetition share no element. *)
Lemma nodup_app_apart (A : Type) (l1 l2 : list A) (a : A) :
  NoDup (l1 ++ l2) -> In a l1 -> In a l2 -> False.
Proof.
  induction l1 as [|x l1 IH]; simpl; [tauto|].
  intros N [->|H1] H2; inversion N as [|? ? Hx Hr]; subst.
  - apply Hx. apply in_or_app. now right.
  - now apply IH.
Qed.

Lemma suggestion_keys : NoDup (map fst suggestions_map).
Proof. apply (distinct_NoDup str_dec). vm_compute. reflexivity. Qed.

(** The fifteen suggestions of the table and the three default ones are
    eighteen different questions. *)
Lemma suggestions_distinct :
  NoDup (concat (map snd suggestions_map) ++ default_suggestions).
Proof. apply (distinct_NoDup str_dec). vm_compute. reflexivity. Qed.

Lemma in_suggestions (k s : str) (l : list str) :
  In (k, l) suggestions_map -> In s l -> In s (concat (map snd suggestions_map)).
Proof.
  intros Hk Hs. apply in_concat. exists l. split; [|exact Hs].
  change l with (snd (k, l)). now apply in_map.
Qed.

(** A suggestion is in the list of one key only, and in the default list
    only when it is in the list of no key. *)
Lemma suggestion_owner (k k' s : str) (l l' : list str) :
  In (k, l) suggestions_map -> In (k', l') suggestions_map ->
  In s l -> In s l' -> k = k'.
Proof.
  pose proof suggestions_distinct as N. apply NoDup_app_remove_r in N.
  revert N. generalize suggestions_map. intros d.
  induction d as [|[k0 l0] d IH]; [intros _ []|].
  cbn [map snd concat]. intros N H1 H2 S1 S2.
  assert (Hsep : forall x lx, In (x, lx) d -> In s l0 -> In s lx -> False).
  { intros x lx Hx S0 Sx.
    apply (@nodup_app_apart _ _ _ s N S0). apply in_concat. exists lx. split; [|exact Sx].
    change lx with (snd (x, lx)). now apply in_map. }
  destruct H1 as [[= -> ->]|H1]; destruct H2 as [[= -> ->]|H2].
  - reflexivity.
  - destruct (Hsep _ _ H2 S1 S2).
  - destruct (Hsep _ _ H1 S2 S1).
  - apply NoDup_app_remove_l in N. now apply IH.
Qed.

Lemma suggestion_not_default (k s : str) (l : list str) :
  In (k, l) suggestions_map -> In s l -> ~ In s default_suggestions.
Proof.
  intros Hk Hs Hd. pose proof suggestions_distinct as N.
  exact (@nodup_app_apart _ _ _ s N (@in_suggestions k s l Hk Hs) Hd).
Qed.

(** X20.  The follow-up suggestions.  Every query type gets three suggestions:
    the list that the table gives to it when it is one of the five keys, and
    else, as for "general", the three default ones.  The lists are the
    keys' own: a suggestion that two query types both get shows that both
    get the same list, and then they are the same key or neither is a
    key. *)
Theorem get_follow_up_suggestions_three (query_type : str) :
  length (get_follow_up_suggestions query_type) = 3
  /\ (forall own, In (query_type, own) suggestions_map ->
                  get_follow_up_suggestions query_type = own)
  /\ (~ In query_type (map fst suggestions_map) ->
      get_follow_up_suggestions query_type = default_suggestions)
  /\ get_follow_up_suggestions (lit "general") = default_suggestions
  /\ (forall other s,
        In s (get_follow_up_suggestions query_type) ->
        In s (get_follow_up_suggestions other) ->
        query_type = other
        \/ ~ In query_type (map fst suggestions_map)
           /\ ~ In other (map fst suggestions_map)).
Proof.
  unfold get_follow_up_suggestions. split; [|split; [|split; [|split]]].
  - assert (Hall : Forall (fun l => length l = 3) (map snd suggestions_map))
      by (repeat constructor).
    rewrite Forall_forall in Hall.
    destruct (dict_lookup query_type suggestions_map) as [l|] eqn:E; [|reflexivity].
    apply Hall. now apply dict_lookup_in with (k := query_type).
  - intros own Hown. now rewrite (@dict_lookup_unique _ _ _ _ suggestion_keys Hown).
  - intros Hn.
    destruct (dict_lookup query_type suggestions_map) as [l|] eqn:E; [|reflexivity].
    exfalso. apply Hn. apply dict_lookup_some in E.
    change query_type with (fst (query_type, l)). now apply in_map.
  - vm_compute. reflexivity.
  - intros other s.
    destruct (dict_lookup query_type suggestions_map) as [l|] eqn:E;
      destruct (dict_lookup other suggestions_map) as [l'|] eqn:E'; intros S1 S2.
    + left. apply dict_lookup_some in E, E'. exact (@suggestion_owner _ _ s _ _ E E' S1 S2).
    + exfalso. apply dict_lookup_some in E. exact (@suggestion_not_default _ s _ E S1 S2).
    + exfalso. apply dict_lookup_some in E'. exact (@suggestion_not_default _ s _ E' S2 S1).
    + right. split; now apply dict_lookup_none.
Qed.

End PromptProps.

(** * The worked document, further *)

Module MoreExamples.
Import PyStr PyStrFacts DocumentProcessor Retrieval VectorStore SimpleDemo Examples.

(** The page mapping and the full text of the policy. *)
Definition policy_mapping : list page_info :=
  [{| text := lit "Policy booklet" ++ [nl]; page_no := 1 |};
   {| text := lit "ELIGIBILITY REQUIREMENTS" ++ nl :: lit "Members aged 18 or more.";
      page_no := 3 |};
   {| text := lit "CLAIMS" ++ nl :: lit "Send the form."; page_no := 4 |}].

Definition policy_text : str :=
  lit "Policy booklet" ++ [nl; nl]
  ++ lit "ELIGIBILITY REQUIREMENTS" ++ nl :: lit "Members aged 18 or more." ++ [nl]
  ++ lit "CLAIMS" ++ nl :: lit "Send the form." ++ [nl].

Lemma policy_extracted : extract_pages 0 policy [] [] = inr (policy_mapping, policy_text).
Proof. vm_compute. reflexivity. Qed.

Definition eligibility_chunk : Document :=
  chunk "Members aged 18 or more." 3 1 "ELIGIBILITY REQUIREMENTS".

Lemma eligibility_chunk_in :
  In eligibility_chunk (snd (process_pdf one_chunk disk policy_path)).
Proof. vm_compute. right. left. reflexivity. Qed.

Lemma page_mapping_exact_witness :
  (forall n t, In {| text := t; page_no := n |} policy_mapping
               <-> 1 <= n /\ nth_error policy (n - 1) = Some (Extracted t) /\ t <> [])
  /\ StronglySorted lt (map page_no policy_mapping)
  /\ policy_text = concat (map (fun q => text q ++ [nl]) policy_mapping).
Proof.
  exact (@ChunkerMore.page_mapping_exact policy policy_mapping policy_text policy_extracted).
Defined.

Lemma process_pdf_chunk_texts_witness :
  map page_content (snd (process_pdf one_chunk disk policy_path))
  = concat (map (ChunkerMore.section_chunks one_chunk) (content_list_of policy_text)).
Proof.
  apply (@ChunkerMore.process_pdf_chunk_texts one_chunk disk policy_path policy
           policy_mapping policy_text).
  - reflexivity.
  - exact policy_extracted.
Defined.

Lemma process_pdf_chunk_provenance_witness :
  source (metadata eligibility_chunk) = basename policy_path
  /\ (exists pages pc ft title body,
        disk policy_path = Opened (Reader pages)
        /\ extract_pages 0 pages [] [] = inr (pc, ft)
        /\ In (title, body) (content_list_of ft)
        /\ section (metadata eligibility_chunk) = strip title
        /\ strip body <> []
        /\ In (page_content eligibility_chunk) (split_text one_chunk body))
  /\ (section (metadata eligibility_chunk) = lit "Introduction"
      \/ section (metadata eligibility_chunk) = lit "General"
      \/ ChunkerMore.header_name (section (metadata eligibility_chunk))).
Proof.
  exact (@ChunkerMore.process_pdf_chunk_provenance one_chunk disk policy_path
           eligibility_chunk eligibility_chunk_in).
Defined.

Lemma process_pdf_page_is_first_with_chunk_witness :
  exists pages,
    disk policy_path = Opened (Reader pages)
    /\ 1 <= 3
    /\ (exists txt, nth_error pages (3 - 1) = Some (Extracted txt)
                    /\ occurs_in (page_content eligibility_chunk) txt)
    /\ forall m txt,
         1 <= m -> m < 3 -> nth_error pages (m - 1) = Some (Extracted txt) ->
         txt <> [] -> ~ occurs_in (page_content eligibility_chunk) txt.
Proof.
  exact (@ChunkerMore.process_pdf_page_is_first_with_chunk one_chunk disk policy_path
           eligibility_chunk eligibility_chunk_in).
Defined.

Definition question : str := lit "who is eligible?".

Lemma compress_documents_selects_witness :
  exists kept dropped,
    snd (compress_documents Z.ltb ready policy_chunks question) = inr kept
    /\ Permutation (kept ++ dropped) policy_chunks
    /\ length kept = Nat.min (Z.to_nat (top_n ready)) (length policy_chunks).
Proof.
  apply (@RerankerMore.compress_documents_selects Z Z.ltb ready by_length policy_chunks question).
  - reflexivity.
  - simpl. lia.
  - discriminate.
  - reflexivity.
Defined.

Lemma compress_documents_keeps_best_witness :
  exists kept dropped : list (Document * Z),
    snd (compress_documents Z.ltb ready policy_chunks question) = inr (map fst kept)
    /\ Permutation (kept ++ dropped) (RerankerMore.scored by_length question policy_chunks)
    /\ forall k d, In k kept -> In d dropped -> (snd k <? snd d)%Z = false.
Proof.
  apply (@RerankerMore.compress_documents_keeps_best Z Z.ltb Zltb_asym Zgeb_trans
           ready by_length policy_chunks question).
  - reflexivity.
  - simpl. lia.
  - discriminate.
Defined.

Lemma compress_documents_stable_witness :
  exists ranked : list (Document * Z),
    snd (compress_documents Z.ltb ready policy_chunks question)
    = inr (map fst (firstn (Z.to_nat (top_n ready)) ranked))
    /\ Permutation ranked (RerankerMore.scored by_length question policy_chunks)
    /\ forall s, filter (RerankerMore.tied snd Z.ltb s) ranked
                 = filter (RerankerMore.tied snd Z.ltb s)
                          (RerankerMore.scored by_length question policy_chunks).
Proof.
  apply (@RerankerMore.compress_documents_stable Z Z.ltb Zgeb_trans
           ready by_length policy_chunks question).
  - reflexivity.
  - simpl. lia.
  - discriminate.
Defined.

(** The index after the policy was taken in. *)
Definition policy_index : VectorStoreManager := {| collection := policy_chunks |}.

Definition mistral : ModelConfig :=
  {| model := lit "mistral:7b"; temperature := LLM_TEMPERATURE; top_p := LLM_TOP_P |}.

Lemma failed_load_surfaces_at_rerank_witness :
  In (Printed (lit "Error initializing CrossEncoder: " ++ lit "model files not found"))
     (fst (get_advanced_retriever no_model policy_index (lit "Mistral")))
  /\ exists rr base,
       PipelineMore.advanced no_model policy_chunks mistral
       = ContextualCompressionRetriever rr base
       /\ (forall documents query,
             documents <> [] ->
             compress_documents Z.ltb rr documents query = ([], inl ModelUnavailable))
       /\ (forall query, compress_documents Z.ltb rr [] query = ([], inr [])).
Proof.
  apply (@PipelineMore.failed_load_surfaces_at_rerank Z Z.ltb no_model policy_index
           (lit "Mistral") (lit "model files not found")
           (PipelineMore.advanced no_model policy_chunks mistral)).
  - reflexivity.
  - reflexivity.
Defined.

(** A chain that answers every question in the same way, citing two chunks
    of one page and section and one of another. *)
Definition chain : RetrievalQA Z :=
  {| qa_llm := mistral; qa_retriever := PipelineMore.advanced no_model policy_chunks mistral |}.

Definition same_answer : RetrievalQA Z -> str -> exn + (str * list Document) :=
  fun _ _ => inr (lit " Members aged 18 or more. ",
                  [chunk "Send the form." 4 2 "CLAIMS";
                   chunk "Members aged 18 or more." 3 1 "ELIGIBILITY REQUIREMENTS";
                   chunk "Send it soon." 4 7 "CLAIMS"]).

Example source_lines_of_answer :
  source_lines [chunk "Send the form." 4 2 "CLAIMS";
                chunk "Members aged 18 or more." 3 1 "ELIGIBILITY REQUIREMENTS";
                chunk "Send it soon." 4 7 "CLAIMS"]
  = [lit "Page 3, Section: ELIGIBILITY REQUIREMENTS"; lit "Page 4, Section: CLAIMS"].
Proof. vm_compute. reflexivity. Qed.

Definition typed_lines : list str := [lit "Who is eligible?"; lit "   "; lit "And my claims?"].

Definition after_lines : list console := [Line (lit " Exit "); Line (lit "never read")].

Lemma qa_loop_asks_witness :
  DemoProps.asked (fst (qa_loop same_answer chain (map Line typed_lines ++ after_lines)))
  = filter DemoProps.non_blank typed_lines
  /\ snd (qa_loop same_answer chain (map Line typed_lines ++ after_lines)) = None.
Proof.
  apply (@DemoProps.qa_loop_asks Z same_answer chain typed_lines after_lines).
  - repeat constructor; intros H; vm_compute in H; discriminate.
  - right. exists (Line (lit " Exit ")), [Line (lit "never read")].
    split; [reflexivity|]. right. exists (lit " Exit ").
    split; [reflexivity | vm_compute; reflexivity].
  - intros query _. now eexists.
Defined.

(** A run over an empty store and a documents directory without a PDF
    file. *)
Definition no_pdf : World :=
  {| stored := [];
     docs_dir := inr [{| name := lit "notes.txt"; suffix := lit ".txt"; is_file := true |};
                      {| name := lit "old.pdf"; suffix := lit ".pdf"; is_file := false |}];
     files := disk;
     inputs := [Line (lit "Who is eligible?")] |}.

(** A run over an empty store and a documents directory with the policy. *)
Definition first_run : World :=
  {| stored := [];
     docs_dir := inr [{| name := lit "notes.txt"; suffix := lit ".txt"; is_file := true |};
                      {| name := lit "policy.pdf"; suffix := lit ".PDF"; is_file := true |}];
     files := fun p => if list_eq_dec ascii_dec p (lit "docs/policy.pdf")
                       then Opened (Reader policy) else Missing;
     inputs := map Line typed_lines ++ after_lines |}.

Lemma demo_without_documents_witness :
  snd (run_advanced_demo no_model one_chunk (lit "docs") same_answer no_pdf) = None
  /\ Forall DemoProps.printed
            (fst (run_advanced_demo no_model one_chunk (lit "docs") same_answer no_pdf))
  /\ DemoProps.asked (fst (run_advanced_demo no_model one_chunk (lit "docs") same_answer no_pdf))
     = [].
Proof.
  apply (@DemoProps.demo_without_documents Z no_model one_chunk (lit "docs") same_answer no_pdf).
  vm_compute. reflexivity.
Defined.

Lemma demo_answers_over_corpus_witness :
  exists rag_chain,
    snd (get_rag_chain no_model DEFAULT_MODEL
           {| collection := DemoProps.corpus one_chunk (lit "docs") first_run |})
    = inr (Some rag_chain)
    /\ DemoProps.asked
         (fst (run_advanced_demo no_model one_chunk (lit "docs") same_answer first_run))
       = DemoProps.asked (fst (qa_loop same_answer rag_chain (inputs first_run)))
    /\ snd (run_advanced_demo no_model one_chunk (lit "docs") same_answer first_run)
       = snd (qa_loop same_answer rag_chain (inputs first_run)).
Proof.
  apply (@DemoProps.demo_answers_over_corpus Z no_model one_chunk (lit "docs") same_answer
           first_run).
  vm_compute. discriminate.
Defined.

Example first_run_asks :
  DemoProps.asked
    (fst (run_advanced_demo no_model one_chunk (lit "docs") same_answer first_run))
  = [lit "Who is eligible?"; lit "And my claims?"].
Proof. vm_compute. reflexivity. Qed.

End MoreExamples.
